(** * Zyppy storefront client: cart engine, session restore, checkout
      guard and payment-status polling of [frontend/src/App.js]

    The React components of [App.js] are embedded shallowly:

    - a [useState] cell is a field of a record, and a call of its setter
      enqueues a [SetStateAction]; the queue of one handler run is applied
      in order when the handler has returned (React's batching), so a
      handler reads the values of the render that created it;
    - numbers that count (quantities, attempt counters) are [Z] and [nat],
      which is what the code computes as long as the counts stay within
      the whole numbers a JavaScript number holds exactly (up to 2^53);
    - of the JavaScript strings that serve as identifiers only equality
      and emptiness matter, and they are [string]s; the text given to
      [JSON.parse] is a [string] read as its UTF-8 encoding; the delivery
      address is a list of UTF-16 code units; [null] of a state cell is
      [None];
    - promises are resolved by explicit events carrying the reply. *)

From Stdlib Require Import ZArith QArith String Ascii.
From stdpp Require Import base decidable option list strings gmap.

Open Scope string_scope.
Open Scope Z_scope.

(** ** React state cells *)

Inductive SetStateAction (A : Type) : Type :=
  | SetValue (v : A)
  | SetUpdater (f : A → A).
Arguments SetValue {A} v.
Arguments SetUpdater {A} f.

Definition apply_action {A} (prev : A) (a : SetStateAction A) : A :=
  match a with
  | SetValue v => v
  | SetUpdater f => f prev
  end.

(** The updates queued by one handler run, applied oldest first. *)
Definition flush {A} (queue : list (SetStateAction A)) (st : A) : A :=
  foldl apply_action st queue.

(** ** JavaScript truthiness of the values that occur *)

Definition truthy_string (s : string) : bool :=
  negb (bool_decide (s = EmptyString)).

(** A state cell holding [null] or a string. *)
Definition truthy_ref (r : option string) : bool :=
  match r with
  | None => false
  | Some s => truthy_string s
  end.

(** ** Cart engine ([CartProvider], App.js lines 51-124) *)

(** A menu item as the backend sends it (the fields [addToCart] reads). *)
Record FoodItem : Type := {
  fi_id : Z;
  fi_name : string;
  fi_price : Q;
  fi_restaurant_id : string
}.

(** A cart line, the object literal of lines 72-78. *)
Record CartLine : Type := {
  food_item_id : Z;
  quantity : Z;
  name : string;
  price : Q;
  restaurant_id : string
}.

(** [{ ...item, quantity: q }] *)
Definition with_quantity (item : CartLine) (q : Z) : CartLine :=
  {| food_item_id := food_item_id item;
     quantity := q;
     name := name item;
     price := price item;
     restaurant_id := restaurant_id item |}.

(** The two state cells of [CartProvider]. *)
Record CartState : Type := {
  cart : list CartLine;
  currentRestaurant : option string
}.

Definition initialCart : CartState :=
  {| cart := []; currentRestaurant := None |}.

(** What one run of a cart handler enqueues on each cell. *)
Record CartEffects : Type := {
  cartQueue : list (SetStateAction (list CartLine));
  restaurantQueue : list (SetStateAction (option string))
}.

Definition noEffect : CartEffects :=
  {| cartQueue := []; restaurantQueue := [] |}.

Definition setCart (a : SetStateAction (list CartLine)) : CartEffects :=
  {| cartQueue := [a]; restaurantQueue := [] |}.

Definition setCurrentRestaurant (a : SetStateAction (option string)) : CartEffects :=
  {| cartQueue := []; restaurantQueue := [a] |}.

(** Sequencing of two statements of a handler. *)
Definition andThen (e1 e2 : CartEffects) : CartEffects :=
  {| cartQueue := cartQueue e1 ++ cartQueue e2;
     restaurantQueue := restaurantQueue e1 ++ restaurantQueue e2 |}.

Declare Scope handler_scope.
Delimit Scope handler_scope with handler.
Notation "e1 ;> e2" := (andThen e1 e2)
  (at level 65, right associativity) : handler_scope.

(** A handler is created by a render and closes over that render's state. *)
Definition Handler : Type := CartState → CartEffects.

(** The next render after a handler run. *)
Definition commit (e : CartEffects) (s : CartState) : CartState :=
  {| cart := flush (cartQueue e) (cart s);
     currentRestaurant := flush (restaurantQueue e) (currentRestaurant s) |}.

(** One user action: the handler of the current render runs to its end and
    the queued updates are committed. *)
Definition dispatch (h : Handler) (s : CartState) : CartState :=
  commit (h s) s.

(** The updater of lines 63-80; the parameter [quantity] of the source is
    [qty] here, [quantity] being the field of a line. *)
Definition addToCart_updater (foodItem : FoodItem) (qty : Z)
    (prevCart : list CartLine) : list CartLine :=
  match list_find (λ item, food_item_id item = fi_id foodItem) prevCart with
  | Some _ =>
      (λ item,
         if decide (food_item_id item = fi_id foodItem)
         then with_quantity item (quantity item + qty)
         else item) <$> prevCart
  | None =>
      prevCart ++ [ {| food_item_id := fi_id foodItem;
                       quantity := qty;
                       name := fi_name foodItem;
                       price := fi_price foodItem;
                       restaurant_id := fi_restaurant_id foodItem |} ]
  end.

(** [addToCart(foodItem, quantity = 1)], lines 55-81. *)
Definition addToCart (foodItem : FoodItem) (qty : Z) : Handler :=
  λ rendered,
    ((if truthy_ref (currentRestaurant rendered)
         && negb (bool_decide (currentRestaurant rendered
                               = Some (fi_restaurant_id foodItem)))
      then setCart (SetValue [])
      else noEffect) ;>
     setCurrentRestaurant (SetValue (Some (fi_restaurant_id foodItem))) ;>
     setCart (SetUpdater (addToCart_updater foodItem qty)))%handler.

(** The call with the second argument left out. *)
Definition addToCart_default (foodItem : FoodItem) : Handler :=
  addToCart foodItem 1.

(** [removeFromCart(foodItemId)], lines 83-85. *)
Definition removeFromCart (foodItemId : Z) : Handler :=
  λ _,
    setCart (SetUpdater (λ prevCart,
      filter (λ item, food_item_id item ≠ foodItemId) prevCart)).

(** [updateQuantity(foodItemId, quantity)], lines 87-100. *)
Definition updateQuantity (foodItemId : Z) (qty : Z) : Handler :=
  λ rendered,
    if bool_decide (qty ≤ 0)
    then removeFromCart foodItemId rendered
    else
      setCart (SetUpdater (λ prevCart,
        (λ item,
           if decide (food_item_id item = foodItemId)
           then with_quantity item qty
           else item) <$> prevCart)).

(** [clearCart()], lines 102-105. *)
Definition clearCart : Handler :=
  λ _, (setCart (SetValue []) ;> setCurrentRestaurant (SetValue None))%handler.

(** A run of user actions, one render between two of them. *)
Definition dispatch_all (hs : list Handler) (s : CartState) : CartState :=
  foldl (λ acc h, dispatch h acc) s hs.

(** All lines of a cart belong to restaurant [r]. *)
Definition lines_of (r : string) (c : list CartLine) : Prop :=
  Forall (λ item, restaurant_id item = r) c.

(** The single-restaurant invariant of the specification: the lines share
    one restaurant id and it is the one the reference holds. *)
Definition single_restaurant (s : CartState) : Prop :=
  ∃ r, currentRestaurant s = Some r ∧ lines_of r (cart s).

(** ** Promises of the HTTP client *)

(** How an awaited [axios] call ends: with the response's [data], or
    rejected (network failure or a non-success status). *)
Inductive Reply (A : Type) : Type :=
  | Resolved (data : A)
  | Rejected.
Arguments Resolved {A} data.
Arguments Rejected {A}.

(** ** Payment-status polling ([OrderSuccess], App.js lines 693-734) *)

Section Polling.
Local Open Scope nat_scope.

(** The values of the [paymentStatus] cell. *)
Inductive PaymentStatus : Type :=
  | checking | success | failed | timeout | error.

#[export] Instance PaymentStatus_eq_dec : EqDecision PaymentStatus.
Proof. solve_decision. Defined.

Definition terminal (p : PaymentStatus) : bool :=
  negb (bool_decide (p = checking)).

(** [response.data] of [GET /payments/status/{session_id}]. *)
Record StatusData : Type := {
  payment_status : string;
  status : string
}.

(** A callback registered with [setTimeout]: the call
    [checkPaymentStatus(sessionId, attempts)] it will make, and its delay
    in milliseconds. *)
Record Timer : Type := {
  timer_delay : nat;
  timer_sessionId : string;
  timer_attempts : nat
}.

(** An invocation of [checkPaymentStatus] suspended at its [await]. *)
Record Awaited : Type := {
  awaited_sessionId : string;
  awaited_attempts : nat
}.

(** The screen together with what the browser holds for it: the timers and
    the requests under way. [queries] lists, oldest first, the status
    queries issued so far: the session id asked for and the attempt
    counter of the invocation that asked. [OrderSuccess] registers no
    cleanup, so unmounting changes [mounted] only. *)
Record OrderSuccess : Type := {
  paymentStatus : PaymentStatus;
  mounted : bool;
  timers : list Timer;
  awaiting : list Awaited;
  queries : list (string * nat)
}.

(** The setter of the [paymentStatus] cell; React drops an update of a
    component that has been unmounted. *)
Definition setPaymentStatus (v : PaymentStatus) (s : OrderSuccess) : OrderSuccess :=
  if mounted s
  then {| paymentStatus := v; mounted := mounted s; timers := timers s;
          awaiting := awaiting s; queries := queries s |}
  else s.

(** [setTimeout(() => checkPaymentStatus(sessionId, attempts), ms)] *)
Definition setTimeout (sessionId : string) (attempts ms : nat)
    (s : OrderSuccess) : OrderSuccess :=
  {| paymentStatus := paymentStatus s; mounted := mounted s;
     timers := timers s ++ [ {| timer_delay := ms;
                                timer_sessionId := sessionId;
                                timer_attempts := attempts |} ];
     awaiting := awaiting s; queries := queries s |}.

(** [await axios.get(`${API}/payments/status/${sessionId}`)]: the request
    leaves and the invocation is suspended. *)
Definition axios_get_status (sessionId : string) (attempts : nat)
    (s : OrderSuccess) : OrderSuccess :=
  {| paymentStatus := paymentStatus s; mounted := mounted s;
     timers := timers s;
     awaiting := awaiting s ++ [ {| awaited_sessionId := sessionId;
                                    awaited_attempts := attempts |} ];
     queries := queries s ++ [(sessionId, attempts)] |}.

Definition maxAttempts : nat := 5.

(** [checkPaymentStatus(sessionId, attempts = 0)] up to its [await],
    lines 709-718. *)
Definition checkPaymentStatus (sessionId : string) (attempts : nat)
    (s : OrderSuccess) : OrderSuccess :=
  if bool_decide (maxAttempts ≤ attempts)
  then setPaymentStatus timeout s
  else axios_get_status sessionId attempts s.

(** The rest of [checkPaymentStatus] once the promise is settled,
    lines 720-733. *)
Definition checkPaymentStatus_resume (sessionId : string) (attempts : nat)
    (r : Reply StatusData) (s : OrderSuccess) : OrderSuccess :=
  match r with
  | Resolved data =>
      if bool_decide (payment_status data = "paid")
      then setPaymentStatus success s
      else if bool_decide (status data = "expired")
      then setPaymentStatus failed s
      else setTimeout sessionId (attempts + 1) 2000 s
  | Rejected => setPaymentStatus error s
  end.

(** The first render and the effect of lines 699-707, on the screen's side;
    [session_id] is [urlParams.get('session_id')]. *)
Definition startPolling (session_id : option string) : OrderSuccess :=
  let s0 := {| paymentStatus := checking; mounted := true;
               timers := []; awaiting := []; queries := [] |} in
  match session_id with
  | Some sessionId =>
      if truthy_string sessionId then checkPaymentStatus sessionId 0 s0 else s0
  | None => s0
  end.

(** The whole effect: it also empties the cart. *)
Definition mountOrderSuccess (session_id : option string)
    (rendered : CartState) : OrderSuccess * CartEffects :=
  (startPolling session_id,
   if truthy_ref session_id then clearCart rendered else noEffect).

(** What can happen to the screen afterwards. *)
Inductive Event : Type :=
  | TimerFires
  | ReplyArrives (r : Reply StatusData)
  | TearDown.

Definition drop_timer (s : OrderSuccess) : OrderSuccess :=
  {| paymentStatus := paymentStatus s; mounted := mounted s;
     timers := tail (timers s); awaiting := awaiting s; queries := queries s |}.

Definition drop_awaited (s : OrderSuccess) : OrderSuccess :=
  {| paymentStatus := paymentStatus s; mounted := mounted s;
     timers := timers s; awaiting := tail (awaiting s); queries := queries s |}.

Definition unmount (s : OrderSuccess) : OrderSuccess :=
  {| paymentStatus := paymentStatus s; mounted := false;
     timers := timers s; awaiting := awaiting s; queries := queries s |}.

(** One event; [None] when the event cannot happen in [s]. *)
Definition step (e : Event) (s : OrderSuccess) : option OrderSuccess :=
  match e with
  | TimerFires =>
      t ← head (timers s);
      Some (checkPaymentStatus (timer_sessionId t) (timer_attempts t)
              (drop_timer s))
  | ReplyArrives r =>
      a ← head (awaiting s);
      Some (checkPaymentStatus_resume (awaited_sessionId a)
              (awaited_attempts a) r (drop_awaited s))
  | TearDown =>
      if mounted s then Some (unmount s) else None
  end.

(** A sequence of events, oldest first. *)
Fixpoint exec (es : list Event) (s : OrderSuccess) : option OrderSuccess :=
  match es with
  | [] => Some s
  | e :: es' => s' ← step e s; exec es' s'
  end.

(** The screen left alone with a backend: the [i]-th query (counted from
    0) is answered by [backend i]; the next thing to happen is the reply
    to the request under way, or else the timer. *)
Definition next_event (backend : nat → Reply StatusData)
    (s : OrderSuccess) : option Event :=
  match awaiting s, timers s with
  | _ :: _, _ => Some (ReplyArrives (backend (length (queries s) - 1)))
  | [], _ :: _ => Some TimerFires
  | [], [] => None
  end.

(** [run backend n s]: up to [n] events; stops early when nothing is
    pending. *)
Fixpoint run (backend : nat → Reply StatusData) (n : nat)
    (s : OrderSuccess) : OrderSuccess :=
  match n with
  | O => s
  | S n' =>
      match next_event backend s with
      | Some e => match step e s with
                  | Some s' => run backend n' s'
                  | None => s
                  end
      | None => s
      end
  end.

(** Nothing is left to happen. *)
Definition quiescent (s : OrderSuccess) : Prop :=
  timers s = [] ∧ awaiting s = [].

(** A reply that neither reports payment nor expiry. *)
Definition unresolved (r : Reply StatusData) : Prop :=
  ∃ data, r = Resolved data ∧ payment_status data ≠ "paid"
          ∧ status data ≠ "expired".

End Polling.

(** ** Session store ([AuthProvider], App.js lines 11-46) *)

(** *** [JSON.parse]

    The values of the JSON grammar (ECMA-404). A number keeps its lexeme
    and a string the characters between its quotes, escapes undecoded: the
    session store only passes the value on. *)
#[local] Unset Elimination Schemes.
Inductive Json : Type :=
  | JNull
  | JBool (b : bool)
  | JNumber (lexeme : string)
  | JString (chars : string)
  | JArray (items : list Json)
  | JObject (members : list (string * Json)).
#[local] Set Elimination Schemes.

Section JsonText.
Local Open Scope nat_scope.

(** A character whose code lies between [lo] and [hi]. *)
Definition code_between (lo hi : nat) (c : ascii) : bool :=
  (lo <=? nat_of_ascii c) && (nat_of_ascii c <=? hi).

Definition is_digit (c : ascii) : bool := code_between 48 57 c.

Definition is_hex (c : ascii) : bool :=
  is_digit c || code_between 65 70 c || code_between 97 102 c.

Definition is_control (c : ascii) : bool := nat_of_ascii c <? 32.

Local Open Scope char_scope.

Definition quote_char : ascii := "034".
Definition backslash_char : ascii := "092".

Definition is_json_ws (c : ascii) : bool :=
  bool_decide (c ∈ [" "; "009"; "010"; "013"]).

Fixpoint skip_ws (cs : list ascii) : list ascii :=
  match cs with
  | c :: r => if is_json_ws c then skip_ws r else cs
  | [] => []
  end.

(** The longest prefix of digits, and the rest. *)
Fixpoint span_digits (cs : list ascii) : list ascii * list ascii :=
  match cs with
  | c :: r =>
      if is_digit c
      then let '(ds, r') := span_digits r in (c :: ds, r')
      else ([], cs)
  | [] => ([], [])
  end.

Definition lex_int (cs : list ascii) : option (list ascii * list ascii) :=
  match cs with
  | c :: r =>
      if bool_decide (c = "0") then Some ([c], r)
      else if is_digit c
      then let '(ds, r') := span_digits r in Some (c :: ds, r')
      else None
  | [] => None
  end.

Definition lex_frac (cs : list ascii) : option (list ascii * list ascii) :=
  match cs with
  | c :: r =>
      if bool_decide (c = ".")
      then match span_digits r with
           | ([], _) => None
           | (ds, r') => Some (c :: ds, r')
           end
      else Some ([], cs)
  | [] => Some ([], [])
  end.

Definition lex_sign (cs : list ascii) : list ascii * list ascii :=
  match cs with
  | c :: r => if bool_decide (c ∈ ["+"; "-"]) then ([c], r) else ([], cs)
  | [] => ([], [])
  end.

Definition lex_exp (cs : list ascii) : option (list ascii * list ascii) :=
  match cs with
  | c :: r =>
      if bool_decide (c ∈ ["e"; "E"])
      then let '(sg, r1) := lex_sign r in
           match span_digits r1 with
           | ([], _) => None
           | (ds, r2) => Some (c :: (sg ++ ds)%list, r2)
           end
      else Some ([], cs)
  | [] => Some ([], [])
  end.

Definition lex_number (cs : list ascii) : option (list ascii * list ascii) :=
  let '(minus, r0) :=
    match cs with
    | c :: r => if bool_decide (c = "-") then ([c], r) else ([], cs)
    | [] => ([], [])
    end in
  '(i, r1) ← lex_int r0;
  '(f, r2) ← lex_frac r1;
  '(e, r3) ← lex_exp r2;
  Some ((minus ++ i ++ f ++ e)%list, r3).

(** The characters of a string up to its closing quote; [acc] holds, newest
    first, those read so far. *)
Fixpoint lex_string (cs : list ascii) (acc : list ascii)
    : option (list ascii * list ascii) :=
  match cs with
  | [] => None
  | c :: r =>
      if bool_decide (c = quote_char) then Some (reverse acc, r)
      else if bool_decide (c = backslash_char) then
        match r with
        | e :: r1 =>
            if bool_decide (e ∈ [quote_char; backslash_char; "/"; "b"; "f";
                                 "n"; "r"; "t"])
            then lex_string r1 (e :: c :: acc)
            else if bool_decide (e = "u") then
              match r1 with
              | h1 :: h2 :: h3 :: h4 :: r2 =>
                  if is_hex h1 && is_hex h2 && is_hex h3 && is_hex h4
                  then lex_string r2 (h4 :: h3 :: h2 :: h1 :: e :: c :: acc)
                  else None
              | _ => None
              end
            else None
        | [] => None
        end
      else if is_control c then None
      else lex_string r (c :: acc)
  end.

(** [cs] without its prefix [p]. *)
Fixpoint strip_prefix (p cs : list ascii) : option (list ascii) :=
  match p, cs with
  | [], _ => Some cs
  | a :: p', c :: r => if bool_decide (a = c) then strip_prefix p' r else None
  | _ :: _, [] => None
  end.

Definition lex_literal (cs : list ascii) : option (Json * list ascii) :=
  match strip_prefix (list_ascii_of_string "null") cs with
  | Some r => Some (JNull, r)
  | None =>
  match strip_prefix (list_ascii_of_string "true") cs with
  | Some r => Some (JBool true, r)
  | None =>
  match strip_prefix (list_ascii_of_string "false") cs with
  | Some r => Some (JBool false, r)
  | None =>
      '(n, r) ← lex_number cs; Some (JNumber (string_of_list_ascii n), r)
  end end end.

(** Recursive descent; every call reads at least one character, so fuel
    above the length of the text is never used up. *)
Fixpoint parse_value (fuel : nat) (cs : list ascii)
    : option (Json * list ascii) :=
  match fuel with
  | O => None
  | S fuel' =>
      match skip_ws cs with
      | [] => None
      | c :: r =>
          if bool_decide (c = "{") then
            match skip_ws r with
            | c' :: r' =>
                if bool_decide (c' = "}") then Some (JObject [], r')
                else parse_members fuel' (c' :: r') []
            | [] => None
            end
          else if bool_decide (c = "[") then
            match skip_ws r with
            | c' :: r' =>
                if bool_decide (c' = "]") then Some (JArray [], r')
                else parse_elements fuel' (c' :: r') []
            | [] => None
            end
          else if bool_decide (c = quote_char) then
            '(str, r') ← lex_string r [];
            Some (JString (string_of_list_ascii str), r')
          else lex_literal (c :: r)
      end
  end
with parse_elements (fuel : nat) (cs : list ascii) (acc : list Json)
    : option (Json * list ascii) :=
  match fuel with
  | O => None
  | S fuel' =>
      '(v, r) ← parse_value fuel' cs;
      match skip_ws r with
      | c :: r' =>
          if bool_decide (c = ",") then parse_elements fuel' r' (v :: acc)
          else if bool_decide (c = "]")
          then Some (JArray (reverse (v :: acc)), r')
          else None
      | [] => None
      end
  end
with parse_members (fuel : nat) (cs : list ascii)
    (acc : list (string * Json)) : option (Json * list ascii) :=
  match fuel with
  | O => None
  | S fuel' =>
      match skip_ws cs with
      | q :: r =>
          if bool_decide (q = quote_char) then
            '(key, r1) ← lex_string r [];
            match skip_ws r1 with
            | colon :: r2 =>
                if bool_decide (colon = ":") then
                  '(v, r3) ← parse_value fuel' r2;
                  match skip_ws r3 with
                  | c :: r4 =>
                      let acc' := (string_of_list_ascii key, v) :: acc in
                      if bool_decide (c = ",") then parse_members fuel' r4 acc'
                      else if bool_decide (c = "}")
                      then Some (JObject (reverse acc'), r4)
                      else None
                  | [] => None
                  end
                else None
            | [] => None
            end
          else None
      | [] => None
      end
  end.

(** [JSON.parse(text)]; [None] stands for the [SyntaxError] it throws. *)
Definition JSON_parse (text : string) : option Json :=
  let cs := list_ascii_of_string text in
  '(v, r) ← parse_value (S (length cs)) cs;
  match skip_ws r with
  | [] => Some v
  | _ :: _ => None
  end.

End JsonText.

(** *** The provider *)

(** How a piece of synchronous code ends: normally, or by an exception
    that nothing in it catches; either way with the state it has reached. *)
Inductive Completion (A : Type) : Type :=
  | Normal (a : A)
  | Throws (a : A).
Arguments Normal {A} a.
Arguments Throws {A} a.

(** The two state cells of [AuthProvider]: [useState(null)] and
    [useState(true)]. *)
Record AuthState : Type := {
  user : Json;
  loading : bool
}.

Definition initialAuth : AuthState :=
  {| user := JNull; loading := true |}.

Definition setUser (v : Json) (s : AuthState) : AuthState :=
  {| user := v; loading := loading s |}.

Definition setLoading (b : bool) (s : AuthState) : AuthState :=
  {| user := user s; loading := b |}.

(** [localStorage.getItem(key)] *)
Definition getItem (key : string) (localStorage : gmap string string)
    : option string :=
  localStorage !! key.

(** The effect of lines 15-22, run once when the provider is mounted. *)
Definition restore (localStorage : gmap string string) (s : AuthState)
    : Completion AuthState :=
  let savedUser := getItem "zyppy_user" localStorage in
  match savedUser with
  | Some text =>
      if truthy_string text
      then match JSON_parse text with
           | Some v => Normal (setLoading false (setUser v s))
           | None => Throws s
           end
      else Normal (setLoading false s)
  | None => Normal (setLoading false s)
  end.

(** A session record as the login endpoint returns it: an object with at
    least the members [id] and [name]. *)
Definition well_formed_session (v : Json) : Prop :=
  ∃ members, v = JObject members
             ∧ is_Some (list_find (λ kv, kv.1 = "id") members)
             ∧ is_Some (list_find (λ kv, kv.1 = "name") members).

(** ** Checkout submission ([CheckoutModal], App.js lines 594-639) *)

(** The delivery address is kept as its UTF-16 code units, since what
    [trim] removes depends on them. *)
Definition CodeUnits : Type := list N.

Definition truthy_units (cs : CodeUnits) : bool :=
  negb (bool_decide (cs = [])).

(** The white space and line terminators of ECMAScript, which
    [String.prototype.trim] removes: TAB, LF, VT, FF, CR, SP, NBSP,
    U+1680, U+2000 to U+200A, U+2028, U+2029, U+202F, U+205F, U+3000 and
    U+FEFF. *)
Definition is_js_whitespace (c : N) : bool :=
  (bool_decide (c ∈ [9; 10; 11; 12; 13; 32; 160; 5760; 8232; 8233; 8239;
                     8287; 12288; 65279]%N)
   || ((8192 <=? c) && (c <=? 8202)))%N.

Fixpoint trimStart (cs : CodeUnits) : CodeUnits :=
  match cs with
  | c :: r => if is_js_whitespace c then trimStart r else cs
  | [] => []
  end.

(** [s.trim()] *)
Definition trim (cs : CodeUnits) : CodeUnits :=
  reverse (trimStart (reverse (trimStart cs))).

(** The body of [POST /orders]; [user_id] is [None] when [user.id] is
    [undefined]. *)
Record OrderData : Type := {
  od_user_id : option Json;
  od_restaurant_id : option string;
  od_items : list (Z * Z);
  od_delivery_address : CodeUnits
}.

(** The body of [POST /payments/checkout]. *)
Record CheckoutData : Type := {
  cd_order_id : string;
  cd_origin_url : string
}.

Inductive Request : Type :=
  | PostOrders (orderData : OrderData)
  | PostCheckout (checkoutData : CheckoutData).

(** What [handleCheckout] can reach: the cart cells (through [useCart]),
    its own [loading] cell, the alerts shown, the requests sent and the
    address the window has been sent to. *)
Record CheckoutWorld : Type := {
  cw_cart : CartState;
  cw_loading : bool;
  cw_alerts : list string;
  cw_requests : list Request;
  cw_location : option string
}.

Definition alert (msg : string) (w : CheckoutWorld) : CheckoutWorld :=
  {| cw_cart := cw_cart w; cw_loading := cw_loading w;
     cw_alerts := cw_alerts w ++ [msg];
     cw_requests := cw_requests w; cw_location := cw_location w |}.

Definition setCheckoutLoading (b : bool) (w : CheckoutWorld) : CheckoutWorld :=
  {| cw_cart := cw_cart w; cw_loading := b;
     cw_alerts := cw_alerts w;
     cw_requests := cw_requests w; cw_location := cw_location w |}.

Definition axios_post (r : Request) (w : CheckoutWorld) : CheckoutWorld :=
  {| cw_cart := cw_cart w; cw_loading := cw_loading w;
     cw_alerts := cw_alerts w;
     cw_requests := cw_requests w ++ [r]; cw_location := cw_location w |}.

Definition redirect (url : string) (w : CheckoutWorld) : CheckoutWorld :=
  {| cw_cart := cw_cart w; cw_loading := cw_loading w;
     cw_alerts := cw_alerts w;
     cw_requests := cw_requests w; cw_location := Some url |}.

(** The text of a key as [JSON.parse] reads it: every escape replaced by
    the code unit it stands for. The bytes of a character outside ASCII
    are kept one by one, which is enough to compare a key with a name
    written in ASCII. *)
Definition hex_value (c : ascii) : N :=
  let n := N_of_ascii c in
  if (n <=? 57)%N then (n - 48)%N
  else if (n <=? 70)%N then (n - 55)%N
  else (n - 87)%N.

Definition escape_unit (e : ascii) : N :=
  if bool_decide (e = "b"%char) then 8%N
  else if bool_decide (e = "f"%char) then 12%N
  else if bool_decide (e = "n"%char) then 10%N
  else if bool_decide (e = "r"%char) then 13%N
  else if bool_decide (e = "t"%char) then 9%N
  else N_of_ascii e.

Fixpoint decode_units (cs : list ascii) : list N :=
  match cs with
  | [] => []
  | c :: r =>
      if bool_decide (c = backslash_char) then
        match r with
        | e :: r1 =>
            if bool_decide (e = "u"%char) then
              match r1 with
              | h1 :: h2 :: h3 :: h4 :: r2 =>
                  (((hex_value h1 * 16 + hex_value h2) * 16
                    + hex_value h3) * 16 + hex_value h4)%N
                  :: decode_units r2
              | _ => []
              end
            else escape_unit e :: decode_units r1
        | [] => []
        end
      else N_of_ascii c :: decode_units r
  end.

Definition key_units (key : string) : list N :=
  decode_units (list_ascii_of_string key).

Definition name_units (name : string) : list N :=
  N_of_ascii <$> list_ascii_of_string name.

(** [o.name] for an object made by [JSON.parse] from the members in the
    order of the text: of the members of that name the last one counts;
    [None] is [undefined]. *)
Definition get_member (name : string) (members : list (string * Json))
    : option Json :=
  snd <$> last (filter (λ kv, key_units kv.1 = name_units name) members).

(** [user.id]: a [TypeError] ([None]) when [user] is [null], the member
    when [user] is an object that has it, [undefined] otherwise. *)
Definition user_id_of (u : Json) : option (option Json) :=
  match u with
  | JNull => None
  | JObject members => Some (get_member "id" members)
  | _ => Some None
  end.

(** The [try] block of lines 607-632; [inl] is its normal end, [inr] the
    state at which an exception leaves it. [orderReply] carries [order.id]
    and [checkoutReply] the redirect [url]. *)
Definition handleCheckout_try (u : Json) (address : CodeUnits)
    (origin : string)
    (orderReply checkoutReply : Reply string)
    (w : CheckoutWorld) : CheckoutWorld + CheckoutWorld :=
  match user_id_of u with
  | None => inr w
  | Some uid =>
      let orderData :=
        {| od_user_id := uid;
           od_restaurant_id := currentRestaurant (cw_cart w);
           od_items := (λ item, (food_item_id item, quantity item))
                         <$> cart (cw_cart w);
           od_delivery_address := address |} in
      let w1 := axios_post (PostOrders orderData) w in
      match orderReply with
      | Rejected => inr w1
      | Resolved order_id =>
          let checkoutData :=
            {| cd_order_id := order_id; cd_origin_url := origin |} in
          let w2 := axios_post (PostCheckout checkoutData) w1 in
          match checkoutReply with
          | Rejected => inr w2
          | Resolved url => inl (redirect url w2)
          end
      end
  end.

(** [handleCheckout()], lines 600-639, run to its end with the replies the
    two requests get. *)
Definition handleCheckout (u : Json) (address : CodeUnits)
    (origin : string)
    (orderReply checkoutReply : Reply string)
    (w : CheckoutWorld) : CheckoutWorld :=
  if negb (truthy_units (trim address))
  then alert "Please enter a delivery address" w
  else
    let w1 := setCheckoutLoading true w in
    let w2 :=
      match handleCheckout_try u address origin orderReply checkoutReply w1 with
      | inl w' => w'
      | inr w' => alert "Checkout failed. Please try again." w'
      end in
    setCheckoutLoading false w2.

(** ** Sample values *)

Definition samosa : FoodItem :=
  {| fi_id := 1; fi_name := "Samosa"; fi_price := 4 # 1;
     fi_restaurant_id := EmptyString |}.

Definition ramen : FoodItem :=
  {| fi_id := 2; fi_name := "Ramen"; fi_price := 11 # 1;
     fi_restaurant_id := "R2" |}.

Definition two_lines : CartState :=
  {| cart := [ {| food_item_id := 1; quantity := 2; name := "Burger";
                  price := 10 # 1; restaurant_id := "R1" |};
               {| food_item_id := 2; quantity := 1; name := "Fries";
                  price := 5 # 1; restaurant_id := "R1" |} ];
     currentRestaurant := Some "R1" |}.

Definition pricier_burger : FoodItem :=
  {| fi_id := 1; fi_name := "Burger XL"; fi_price := 12 # 1;
     fi_restaurant_id := "R1" |}.

(** A space, a tab and a no-break space. *)
Definition blank_address : CodeUnits := [32; 9; 160]%N.

Definition stillOpen : Reply StatusData :=
  Resolved {| payment_status := "unpaid"; status := "open" |}.

Definition expired : Reply StatusData :=
  Resolved {| payment_status := "unpaid"; status := "expired" |}.

(** ** Notions the statements use *)

(** An address made of white space only; the empty address is one. *)
Definition blank (address : CodeUnits) : Prop :=
  Forall (λ c, is_js_whitespace c = true) address.

(** The session store as the specification has it: whatever is stored,
    [restore] ends normally, with the session unset or well formed. *)
Definition restore_never_fails : Prop :=
  ∀ (localStorage : gmap string string) (s : AuthState),
    user s = JNull →
    ∃ s', restore localStorage s = Normal s'
          ∧ (user s' = JNull ∨ well_formed_session (user s')).

Section PollingShapes.
Local Open Scope nat_scope.

(** A parser that succeeds with fuel [f] reads at least one character and
    succeeds alike with any fuel not below the number of characters read. *)
Definition enough_fuel {A : Type}
    (parse : nat → list ascii → option (A * list ascii)) (f : nat) : Prop :=
  ∀ cs v r, parse f cs = Some (v, r) →
    length r < length cs
    ∧ ∀ f', length cs - length r ≤ f' → parse f' cs = Some (v, r).

(** The two shapes of the screen while it polls: the query of attempt [k]
    under way, and the timer for attempt [k] registered. *)
Definition asked (sessionId : string) (k : nat) : list (string * nat) :=
  (λ a, (sessionId, a)) <$> seq 0 k.

Definition polling_at (sessionId : string) (k : nat) : OrderSuccess :=
  {| paymentStatus := checking; mounted := true; timers := [];
     awaiting := [ {| awaited_sessionId := sessionId;
                      awaited_attempts := k |} ];
     queries := asked sessionId (S k) |}.

Definition sleeping_at (sessionId : string) (k : nat) : OrderSuccess :=
  {| paymentStatus := checking; mounted := true;
     timers := [ {| timer_delay := 2000; timer_sessionId := sessionId;
                    timer_attempts := k |} ];
     awaiting := []; queries := asked sessionId k |}.

Definition timed_out (sessionId : string) (k : nat) : OrderSuccess :=
  {| paymentStatus := timeout; mounted := true; timers := [];
     awaiting := []; queries := asked sessionId k |}.

(** The chain of one session: [k] queries sent, and pending either
    nothing, or the reply to the last query, or the timer of attempt [k]. *)
Definition chain_inv (sessionId : string) (s : OrderSuccess) : Prop :=
  ∃ k, k ≤ maxAttempts ∧ queries s = asked sessionId k
    ∧ ((timers s = [] ∧ awaiting s = [])
       ∨ (∃ a, k = S a ∧ timers s = []
               ∧ awaiting s = [ {| awaited_sessionId := sessionId;
                                   awaited_attempts := a |} ])
       ∨ (timers s = [ {| timer_delay := 2000; timer_sessionId := sessionId;
                          timer_attempts := k |} ]
          ∧ awaiting s = [])).

(** At most one thing is pending, and nothing once the status is
    terminal. *)
Definition polling_inv (s : OrderSuccess) : Prop :=
  length (timers s) + length (awaiting s) ≤ 1
  ∧ (terminal (paymentStatus s) = true → quiescent s).

(** Unmounting as the specification has it: once the screen is unmounted
    with a timer registered, whatever happens afterwards sends no query. *)
Definition teardown_cancels_polling : Prop :=
  ∀ session_id es s s1 es' s2,
    exec es (startPolling session_id) = Some s →
    timers s ≠ [] →
    step TearDown s = Some s1 →
    exec es' s1 = Some s2 →
    queries s2 = queries s1.

End PollingShapes.

(** ** The cart as the screens use it *)

(** The four things a user can do to the cart. *)
Inductive CartAction : Type :=
  | DoAdd (foodItem : FoodItem) (qty : Z)
  | DoRemove (foodItemId : Z)
  | DoUpdate (foodItemId : Z) (qty : Z)
  | DoClear.

Definition handler_of (a : CartAction) : Handler :=
  match a with
  | DoAdd foodItem qty => addToCart foodItem qty
  | DoRemove foodItemId => removeFromCart foodItemId
  | DoUpdate foodItemId qty => updateQuantity foodItemId qty
  | DoClear => clearCart
  end.

(** The cart after a run of actions from the empty cart. *)
Definition cart_after (actions : list CartAction) : CartState :=
  dispatch_all (handler_of <$> actions) initialCart.

Definition line_ids (c : list CartLine) : list Z := food_item_id <$> c.

(** The number on the cart badge of [Navigation], line 941:
    [cart.reduce((sum, item) => sum + item.quantity, 0)]. *)
Definition cartCount (c : list CartLine) : Z :=
  foldl (λ sum item, sum + quantity item) 0 c.

(** The [-] and [+] buttons of a line in [CartSidebar], lines 539 and 546. *)
Definition minusButton (item : CartLine) : Handler :=
  updateQuantity (food_item_id item) (quantity item - 1).

Definition plusButton (item : CartLine) : Handler :=
  updateQuantity (food_item_id item) (quantity item + 1).

(** The [Add to Cart] button of [MenuItemCard], line 499. *)
Definition addButton (foodItem : FoodItem) : Handler :=
  addToCart_default foodItem.

(** [getCartTotal()], lines 107-109. The sum and the product are those of
    JavaScript numbers; they are parameters here, with the readings of a
    price and of a quantity as numbers, so that what is proved of the total
    holds whatever the arithmetic. *)
Section CartTotal.

Context {Num : Type} (zero : Num) (plus times : Num → Num → Num)
  (of_price : Q → Num) (of_quantity : Z → Num).

Definition getCartTotal (c : list CartLine) : Num :=
  foldl (λ total item,
           plus total (times (of_price (price item))
                             (of_quantity (quantity item))))
    zero c.

End CartTotal.

(** ** Session store: [login] and [logout], lines 24-39 *)

(** [login(email)] once the request is settled; [stringify] is
    [JSON.stringify]. On a rejected request the error is thrown on. *)
Definition login (stringify : Json → string) (reply : Reply Json)
    (localStorage : gmap string string) (s : AuthState)
    : Completion (gmap string string * AuthState) :=
  match reply with
  | Resolved data =>
      Normal (<["zyppy_user" := stringify data]> localStorage, setUser data s)
  | Rejected => Throws (localStorage, s)
  end.

(** [logout()] *)
Definition logout (localStorage : gmap string string) (s : AuthState)
    : gmap string string * AuthState :=
  (delete "zyppy_user" localStorage, setUser JNull s).

(** *** The login screen ([Login], lines 145-163) *)

(** The session store together with what [handleSubmit] can reach: its
    own [loading] cell, the e-mails sent to the login endpoint, the alerts
    shown and the calls of [onLogin]. *)
Record LoginWorld : Type := {
  lw_storage : gmap string string;
  lw_auth : AuthState;
  lw_loading : bool;
  lw_posted : list string;
  lw_alerts : list string;
  lw_onLogin : nat
}.

(** [handleSubmit(e)] run to its end with the reply the login request
    gets. *)
Definition handleSubmit (stringify : Json → string) (email : string)
    (reply : Reply Json) (w : LoginWorld) : LoginWorld :=
  if negb (truthy_string email) then w
  else
    match login stringify reply (lw_storage w) (lw_auth w) with
    | Normal (storage', auth') =>
        {| lw_storage := storage'; lw_auth := auth'; lw_loading := false;
           lw_posted := lw_posted w ++ [email]; lw_alerts := lw_alerts w;
           lw_onLogin := S (lw_onLogin w) |}
    | Throws (storage', auth') =>
        {| lw_storage := storage'; lw_auth := auth'; lw_loading := false;
           lw_posted := lw_posted w ++ [email];
           lw_alerts := lw_alerts w ++ ["Login failed. Please try again."];
           lw_onLogin := lw_onLogin w |}
    end.

(** ** View router ([App], lines 964-987) *)

Inductive View : Type :=
  | home | restaurant | orders | order_success.

(** The two state cells of [App]. *)
Record RouterState : Type := {
  currentView : View;
  restaurantId : option string
}.

Definition initialRouter : RouterState :=
  {| currentView := home; restaurantId := None |}.

(** [s.slice(1)] *)
Definition slice1 (s : string) : string :=
  match s with
  | EmptyString => EmptyString
  | String _ r => r
  end.

(** [s.split(sep)] for a separator of one character: the pieces between
    the occurrences of [sep], empty pieces included. *)
Fixpoint split (sep : ascii) (s : string) : list string :=
  match s with
  | EmptyString => [EmptyString]
  | String c r =>
      if bool_decide (c = sep) then EmptyString :: split sep r
      else match split sep r with
           | piece :: pieces => String c piece :: pieces
           | [] => [String c EmptyString]
           end
  end.

(** [s.startsWith(p)] *)
Definition startsWith (p s : string) : bool := String.prefix p s.

(** [handleHashChange()], lines 969-981; [location_hash] is
    [window.location.hash]. *)
Definition handleHashChange (location_hash : string) (s : RouterState)
    : RouterState :=
  let hash := slice1 location_hash in
  if startsWith "restaurant/" hash
  then {| currentView := restaurant;
          restaurantId := split "/" hash !! 1%nat |}
  else if bool_decide (hash = "orders")
  then {| currentView := orders; restaurantId := restaurantId s |}
  else if bool_decide (hash = "order-success")
  then {| currentView := order_success; restaurantId := restaurantId s |}
  else {| currentView := home; restaurantId := restaurantId s |}.

(** The part of a string before its first [sep], the whole string when
    there is none. *)
Fixpoint before_first (sep : ascii) (s : string) : string :=
  match s with
  | EmptyString => EmptyString
  | String c r =>
      if bool_decide (c = sep) then EmptyString
      else String c (before_first sep r)
  end.

(** ** Menu of a restaurant ([RestaurantMenu], lines 372-375) *)

Section Menu.

(** Of a menu item only its category is read here. *)
Context {Item : Type} (category : Item → string).

(** [new Set(values)] spread into an array: the values in the order of
    their first occurrence. *)
Definition set_values (values : list string) : list string :=
  foldl (λ seen v, if decide (v ∈ seen) then seen else (seen ++ [v])%list)
    [] values.

(** [[...new Set(menuItems.map(item => item.category))]] *)
Definition categories (menuItems : list Item) : list string :=
  set_values (category <$> menuItems).

(** [filteredItems], lines 373-375. *)
Definition filteredItems (selectedCategory : string)
    (menuItems : list Item) : list Item :=
  if truthy_string selectedCategory
  then filter (λ item, category item = selectedCategory) menuItems
  else menuItems.

End Menu.

(** ** Notions of the further statements *)

(** What the last decisive reply makes of the status. *)
Definition outcome (r : Reply StatusData) : PaymentStatus :=
  match r with
  | Rejected => error
  | Resolved data =>
      if bool_decide (payment_status data = "paid") then success
      else failed
  end.

(** Runs in which every [addToCart] call adds at least one unit. *)
Definition adds_at_least_one (a : CartAction) : Prop :=
  match a with
  | DoAdd _ qty => 1 ≤ qty
  | _ => True
  end.

(** Runs in which the items added carry a restaurant id that is not the
    empty string. *)
Definition adds_named_restaurant (a : CartAction) : Prop :=
  match a with
  | DoAdd foodItem _ => fi_restaurant_id foodItem ≠ EmptyString
  | _ => True
  end.

(** The screen at rest: a status, nothing pending, the queries of the
    attempts below [k] sent. *)
Definition settled (sessionId : string) (st : PaymentStatus) (k : nat)
    : OrderSuccess :=
  {| paymentStatus := st; mounted := true; timers := []; awaiting := [];
     queries := asked sessionId k |}.

(** The largest count up to which every whole number is a JavaScript
    number, and sums of such counts are exact. *)
Definition max_safe_count : Z := 2 ^ 53.

(** A cart without negative quantities: every partial sum of the badge
    lies between zero and the count. *)
Definition counts_from_zero (c : list CartLine) : Prop :=
  Forall (λ item, 0 ≤ quantity item) c.

(** [s1] is an unmounted screen with the timers, the requests and the
    queries of [s2]. *)
Definition tracks (s1 s2 : OrderSuccess) : Prop :=
  mounted s1 = false ∧ timers s1 = timers s2
  ∧ awaiting s1 = awaiting s2 ∧ queries s1 = queries s2.

(** Every line belongs to the restaurant the reference holds. *)
Definition lines_follow_reference (s : CartState) : Prop :=
  ∀ item, item ∈ cart s → currentRestaurant s = Some (restaurant_id item).

(** A sample menu. *)
Definition sample_menu : list (string * string) :=
  [("Bruschetta", "Starters"); ("Lasagne", "Mains"); ("Soup", "Starters");
   ("Tiramisu", "Desserts")].

(** Rational arithmetic for the total. *)
Definition total_Q : list CartLine → Q :=
  getCartTotal 0%Q Qplus Qmult (λ p, p) inject_Z.

(** A printer of the JSON values met in the samples: compact, members in
    order, lexemes as kept. *)
Fixpoint print_json (v : Json) : string :=
  match v with
  | JNull => "null"
  | JBool true => "true"
  | JBool false => "false"
  | JNumber lexeme => lexeme
  | JString chars =>
      String quote_char (chars +:+ String quote_char EmptyString)
  | JArray items =>
      "[" +:+ (fix go (vs : list Json) : string :=
                 match vs with
                 | [] => EmptyString
                 | [v] => print_json v
                 | v :: vs' => print_json v +:+ "," +:+ go vs'
                 end) items +:+ "]"
  | JObject members =>
      "{" +:+ (fix go (kvs : list (string * Json)) : string :=
                 match kvs with
                 | [] => EmptyString
                 | [(k, v)] =>
                     String quote_char (k +:+ String quote_char ":")
                     +:+ print_json v
                 | (k, v) :: kvs' =>
                     String quote_char (k +:+ String quote_char ":")
                     +:+ print_json v +:+ "," +:+ go kvs'
                 end) members +:+ "}"
  end.

Definition sample_user : Json :=
  JObject [("id", JString "u-17"); ("name", JString "Asha");
           ("email", JString "asha@example.com")].

(** * Properties *)

(** ** Cart engine *)

Section CartFacts.

Implicit Types (s : CartState) (item : CartLine) (foodItem : FoodItem).

(** What [addToCart] commits, by whether the guard of line 57 fires. *)
Lemma dispatch_addToCart_switch s foodItem qty :
  truthy_ref (currentRestaurant s) = true →
  currentRestaurant s ≠ Some (fi_restaurant_id foodItem) →
  dispatch (addToCart foodItem qty) s =
    {| cart := addToCart_updater foodItem qty [];
       currentRestaurant := Some (fi_restaurant_id foodItem) |}.
Proof.
  intros Ht Hne. unfold dispatch, addToCart, commit.
  rewrite Ht, bool_decide_eq_false_2 by done. reflexivity.
Qed.

Lemma dispatch_addToCart_stay s foodItem qty :
  truthy_ref (currentRestaurant s) = false
  ∨ currentRestaurant s = Some (fi_restaurant_id foodItem) →
  dispatch (addToCart foodItem qty) s =
    {| cart := addToCart_updater foodItem qty (cart s);
       currentRestaurant := Some (fi_restaurant_id foodItem) |}.
Proof.
  intros H. unfold dispatch, addToCart, commit.
  destruct H as [-> | Heq]; [reflexivity |].
  rewrite (bool_decide_eq_true_2 _ Heq), andb_false_r. reflexivity.
Qed.

(** The updater keeps a cart of one restaurant in that restaurant. *)
Lemma addToCart_updater_lines_of foodItem qty c :
  lines_of (fi_restaurant_id foodItem) c →
  lines_of (fi_restaurant_id foodItem) (addToCart_updater foodItem qty c).
Proof.
  intros Hc. unfold addToCart_updater, lines_of in *.
  destruct (list_find _ c) as [hit |].
  - apply Forall_fmap. eapply Forall_impl; [exact Hc |].
    intros item Hitem; simpl. by destruct (decide _).
  - apply Forall_app; split; [exact Hc |]. by repeat constructor.
Qed.

(** With restaurant ids that are not empty strings, the cart stays with
    one restaurant through any run of [addToCart] calls. *)
Lemma addToCart_keeps_single_restaurant s foodItem qty :
  truthy_string (fi_restaurant_id foodItem) = true →
  (cart s = [] ∧ currentRestaurant s = None)
  ∨ (truthy_ref (currentRestaurant s) = true ∧ single_restaurant s) →
  truthy_ref (currentRestaurant (dispatch (addToCart foodItem qty) s)) = true
  ∧ single_restaurant (dispatch (addToCart foodItem qty) s).
Proof.
  intros Hrid [[Hnil Hnone] | [Ht (r & Hr & Hlines)]].
  - rewrite dispatch_addToCart_stay by (left; by rewrite Hnone).
    split; [exact Hrid |]. eexists; split; [reflexivity |]; simpl.
    apply addToCart_updater_lines_of. rewrite Hnil. constructor.
  - destruct (decide (r = fi_restaurant_id foodItem)) as [-> | Hne].
    + rewrite dispatch_addToCart_stay by (by right).
      split; [exact Hrid |]. eexists; split; [reflexivity |]; simpl.
      by apply addToCart_updater_lines_of.
    + rewrite dispatch_addToCart_switch by (rewrite ?Hr; congruence).
      split; [exact Hrid |]. eexists; split; [reflexivity |]; simpl.
      apply addToCart_updater_lines_of. constructor.
Qed.

Lemma addToCart_runs_single_restaurant (calls : list (FoodItem * Z)) :
  Forall (λ call, truthy_string (fi_restaurant_id call.1) = true) calls →
  calls ≠ [] →
  single_restaurant
    (dispatch_all ((λ call, addToCart call.1 call.2) <$> calls) initialCart).
Proof.
  intros Hids Hne.
  cut (truthy_ref (currentRestaurant
         (dispatch_all ((λ call, addToCart call.1 call.2) <$> calls)
            initialCart)) = true
       ∧ single_restaurant
           (dispatch_all ((λ call, addToCart call.1 call.2) <$> calls)
              initialCart)); [tauto |].
  induction calls as [| call calls IH] using rev_ind; [done |].
  apply Forall_app in Hids as [Hids Hcall].
  rewrite Forall_singleton in Hcall.
  unfold dispatch_all. rewrite fmap_app, foldl_app. simpl.
  apply addToCart_keeps_single_restaurant; [exact Hcall |].
  destruct calls as [| c0 calls']; [left; done |].
  right. by apply IH.
Qed.

(** Scenario B of the specification. *)
Lemma addToCart_other_restaurant_one_line s foodItem qty :
  truthy_ref (currentRestaurant s) = true →
  currentRestaurant s ≠ Some (fi_restaurant_id foodItem) →
  cart (dispatch (addToCart foodItem qty) s) =
    [ {| food_item_id := fi_id foodItem; quantity := qty;
         name := fi_name foodItem; price := fi_price foodItem;
         restaurant_id := fi_restaurant_id foodItem |} ].
Proof. intros Ht Hne. by rewrite dispatch_addToCart_switch. Qed.

End CartFacts.

(** Scenarios A and B of the specification on the sample cart. *)
Example addToCart_scenarios :
  dispatch (addToCart pricier_burger 1) two_lines
  = {| cart := [ {| food_item_id := 1; quantity := 3; name := "Burger";
                    price := 10 # 1; restaurant_id := "R1" |};
                 {| food_item_id := 2; quantity := 1; name := "Fries";
                    price := 5 # 1; restaurant_id := "R1" |} ];
       currentRestaurant := Some "R1" |}
  ∧ dispatch (addToCart_default ramen) two_lines
    = {| cart := [ {| food_item_id := 2; quantity := 1; name := "Ramen";
                      price := 11 # 1; restaurant_id := "R2" |} ];
         currentRestaurant := Some "R2" |}.
Proof. split; reflexivity. Qed.

(** C2 (the single-restaurant invariant over runs of [addToCart]) at the
    input where the code departs from it: when the current restaurant's id
    is the empty string the guard of line 57 reads it as no restaurant, the
    cart is not emptied, and the lines of two restaurants stay side by
    side. *)
Theorem addToCart_empty_restaurant_id_mixes_lines :
  let s := dispatch_all [addToCart_default samosa; addToCart_default ramen]
             initialCart in
  restaurant_id <$> cart s = [EmptyString; "R2"]
  ∧ currentRestaurant s = Some "R2"
  ∧ ¬ single_restaurant s.
Proof.
  repeat split.
  intros (r & Hr & Hlines). cbv in Hr. injection Hr as <-.
  apply Forall_cons in Hlines as [Habs _]. discriminate Habs.
Qed.

Section CartOperations.

Implicit Types (s : CartState) (item : CartLine) (foodItem : FoodItem).

Lemma dispatch_updateQuantity_positive s foodItemId q :
  0 < q →
  dispatch (updateQuantity foodItemId q) s =
    {| cart := (λ item, if decide (food_item_id item = foodItemId)
                        then with_quantity item q else item) <$> cart s;
       currentRestaurant := currentRestaurant s |}.
Proof.
  intros Hq. unfold dispatch, updateQuantity.
  rewrite bool_decide_eq_false_2 by lia. reflexivity.
Qed.

(** C7: for every cart, food item id and quantity [q ≤ 0],
    [updateQuantity id q] leaves exactly the cart [removeFromCart id]
    leaves; for [q > 0] it keeps the lines in place and gives every line
    of that id the quantity [q] itself, whatever its quantity was, the
    other lines being untouched. *)
Theorem updateQuantity_floor_and_exact s foodItemId :
  (∀ q, q ≤ 0 →
     dispatch (updateQuantity foodItemId q) s
     = dispatch (removeFromCart foodItemId) s)
  ∧ (∀ q, 0 < q →
       let s' := dispatch (updateQuantity foodItemId q) s in
       currentRestaurant s' = currentRestaurant s
       ∧ length (cart s') = length (cart s)
       ∧ ∀ (i : nat) item, cart s !! i = Some item →
           (food_item_id item = foodItemId →
              ∃ item', cart s' !! i = Some item'
                       ∧ quantity item' = q
                       ∧ item' = with_quantity item q)
           ∧ (food_item_id item ≠ foodItemId → cart s' !! i = Some item)).
Proof.
  split.
  - intros q Hq. unfold dispatch, updateQuantity.
    by rewrite bool_decide_eq_true_2.
  - intros q Hq s'. subst s'. rewrite dispatch_updateQuantity_positive by done.
    simpl. split; [done |]. split; [apply length_fmap |].
    intros i item Hi. rewrite list_lookup_fmap, Hi. simpl.
    split; intros Hid.
    + rewrite decide_True by done. eauto.
    + by rewrite decide_False.
Qed.

Lemma updateQuantity_floor_and_exact_witness :
  dispatch (updateQuantity 1 (-3)) two_lines
  = dispatch (removeFromCart 1) two_lines
  ∧ ∃ item', cart (dispatch (updateQuantity 1 7) two_lines) !! 0%nat = Some item'
             ∧ quantity item' = 7.
Proof.
  split.
  - apply (proj1 (updateQuantity_floor_and_exact two_lines 1)). lia.
  - destruct (proj2 (updateQuantity_floor_and_exact two_lines 1) 7 ltac:(lia))
      as (_ & _ & Hlines).
    destruct (Hlines 0%nat _ eq_refl) as [Hhit _].
    destruct (Hhit eq_refl) as (item' & Hi & Hq & _).
    exists item'. split; assumption.
Defined.

(** C9: [removeFromCart] and [updateQuantity] leave the current-restaurant
    reference as it is; removing the only line of a cart leaves the
    reference on the former restaurant; [clearCart] sets it to none, and
    [addToCart] never does. *)
Theorem currentRestaurant_only_reset_by_clearCart s foodItemId q :
  currentRestaurant (dispatch (removeFromCart foodItemId) s)
    = currentRestaurant s
  ∧ currentRestaurant (dispatch (updateQuantity foodItemId q) s)
    = currentRestaurant s
  ∧ (∀ item r,
       dispatch (removeFromCart (food_item_id item))
         {| cart := [item]; currentRestaurant := Some r |}
       = {| cart := []; currentRestaurant := Some r |})
  ∧ dispatch clearCart s = {| cart := []; currentRestaurant := None |}
  ∧ (∀ foodItem qty,
       currentRestaurant (dispatch (addToCart foodItem qty) s)
       = Some (fi_restaurant_id foodItem)).
Proof.
  repeat split.
  - unfold dispatch, updateQuantity. by destruct (bool_decide (q ≤ 0)).
  - intros item r. unfold dispatch, removeFromCart, commit; simpl.
    by rewrite filter_cons_False by (intros Hne; by apply Hne).
  - intros foodItem qty. unfold dispatch, addToCart, commit; simpl.
    by destruct (truthy_ref _ && _).
Qed.

(** C10: when the item added has the restaurant the cart is on and a line
    of its id is there, the cart keeps its lines in place; every line
    keeps its id, name, unit price and restaurant, the lines of that id
    have their quantity raised by the quantity added, and the other lines
    are unchanged. *)
Theorem addToCart_existing_keeps_name_and_price s foodItem qty :
  currentRestaurant s = Some (fi_restaurant_id foodItem) →
  (∃ line, line ∈ cart s ∧ food_item_id line = fi_id foodItem) →
  let s' := dispatch (addToCart foodItem qty) s in
  length (cart s') = length (cart s)
  ∧ ∀ (i : nat) item, cart s !! i = Some item →
      ∃ item', cart s' !! i = Some item'
        ∧ food_item_id item' = food_item_id item
        ∧ name item' = name item
        ∧ price item' = price item
        ∧ restaurant_id item' = restaurant_id item
        ∧ quantity item' = (if decide (food_item_id item = fi_id foodItem)
                            then quantity item + qty else quantity item).
Proof.
  intros Hcur (line & Hin & Hid) s'. subst s'.
  rewrite dispatch_addToCart_stay by (by right). simpl.
  unfold addToCart_updater.
  destruct (list_find_elem_of (λ item, food_item_id item = fi_id foodItem)
              (cart s) line Hin Hid) as [hit ->].
  split; [apply length_fmap |].
  intros i item Hi. rewrite list_lookup_fmap, Hi. simpl.
  eexists; split; [reflexivity |].
  by destruct (decide (food_item_id item = fi_id foodItem)).
Qed.

Lemma addToCart_existing_keeps_name_and_price_witness :
  ∃ item', cart (dispatch (addToCart pricier_burger 3) two_lines) !! 0%nat
           = Some item'
    ∧ name item' = "Burger" ∧ price item' = 10 # 1 ∧ quantity item' = 5.
Proof.
  destruct (addToCart_existing_keeps_name_and_price two_lines pricier_burger 3
              eq_refl) as [_ Hlines].
  - eexists. split; [apply list_elem_of_here | reflexivity].
  - destruct (Hlines 0%nat _ eq_refl)
      as (item' & Hi & _ & Hname & Hprice & _ & Hq).
    exists item'. repeat split; assumption.
Defined.

End CartOperations.

(** ** Checkout submission *)

Section CheckoutFacts.

Lemma trimStart_blank (cs : CodeUnits) : blank cs → trimStart cs = [].
Proof.
  induction 1 as [| c cs Hc _ IH]; [reflexivity |].
  simpl. by rewrite Hc.
Qed.

Lemma trim_blank (address : CodeUnits) : blank address → trim address = [].
Proof.
  intros Hb. unfold trim. by rewrite (trimStart_blank _ Hb).
Qed.

(** C8: [handleCheckout] with an empty or white-space-only address sends
    no request, neither the order nor the payment session, does not
    leave the page, and leaves the cart, lines and current restaurant, as
    it was; all it does is show the message asking for an address. *)
Theorem handleCheckout_blank_address_rejected
    (u : Json) (address : CodeUnits) (origin : string)
    (orderReply checkoutReply : Reply string) (w : CheckoutWorld) :
  blank address →
  let w' := handleCheckout u address origin orderReply checkoutReply w in
  cw_requests w' = cw_requests w
  ∧ cw_cart w' = cw_cart w
  ∧ cw_location w' = cw_location w
  ∧ cw_loading w' = cw_loading w
  ∧ cw_alerts w' = (cw_alerts w ++ ["Please enter a delivery address"])%list.
Proof.
  intros Hb w'. subst w'. unfold handleCheckout.
  rewrite (trim_blank _ Hb). simpl. done.
Qed.

End CheckoutFacts.

Lemma handleCheckout_blank_address_rejected_witness :
  cw_requests
    (handleCheckout JNull blank_address "https://zyppy.example" Rejected Rejected
       {| cw_cart := two_lines; cw_loading := false; cw_alerts := [];
          cw_requests := []; cw_location := None |}) = []
  ∧ cw_cart
      (handleCheckout JNull blank_address "https://zyppy.example" Rejected Rejected
         {| cw_cart := two_lines; cw_loading := false; cw_alerts := [];
            cw_requests := []; cw_location := None |}) = two_lines.
Proof.
  assert (Hb : blank blank_address) by (repeat constructor).
  destruct (handleCheckout_blank_address_rejected JNull blank_address
              "https://zyppy.example" Rejected Rejected
              {| cw_cart := two_lines; cw_loading := false; cw_alerts := [];
                 cw_requests := []; cw_location := None |} Hb)
    as (Hreq & Hcart & _).
  split; assumption.
Defined.

(** An address that is not blank passes the guard: the order and then the
    payment session are requested, and the window follows the redirect. *)
Example handleCheckout_submits :
  handleCheckout (JObject [("id", JString "u1")]) [49; 32; 77; 97; 105; 110]%N
    "https://zyppy.example" (Resolved "o1") (Resolved "https://pay.example/s")
    {| cw_cart := two_lines; cw_loading := false; cw_alerts := [];
       cw_requests := []; cw_location := None |}
  = {| cw_cart := two_lines; cw_loading := false; cw_alerts := [];
       cw_requests :=
         [ PostOrders {| od_user_id := Some (JString "u1");
                         od_restaurant_id := Some "R1";
                         od_items := [(1, 2); (2, 1)];
                         od_delivery_address := [49; 32; 77; 97; 105; 110]%N |};
           PostCheckout {| cd_order_id := "o1";
                           cd_origin_url := "https://zyppy.example" |} ];
       cw_location := Some "https://pay.example/s" |}.
Proof. reflexivity. Qed.

(** ** Session store *)

(** *** The fuel of [JSON.parse] *)

Section JsonFuel.
Local Open Scope nat_scope.

Implicit Types (cs r : list ascii).

Lemma skip_ws_length cs : length (skip_ws cs) ≤ length cs.
Proof.
  induction cs as [| c cs IH]; simpl; [lia |].
  destruct (is_json_ws c); simpl; lia.
Qed.

Lemma span_digits_length cs ds r :
  span_digits cs = (ds, r) → length r ≤ length cs.
Proof.
  revert ds r. induction cs as [| c cs IH]; intros ds r H; simpl in H.
  - by simplify_eq.
  - destruct (is_digit c).
    + destruct (span_digits cs) as [ds' r'] eqn:E. simplify_eq.
      pose proof (IH ds' r eq_refl). simpl. lia.
    + simplify_eq. simpl. lia.
Qed.

Lemma lex_string_length cs acc str r :
  lex_string cs acc = Some (str, r) → length r < length cs.
Proof.
  remember (length cs) as n eqn:Hn.
  assert (Hle : length cs ≤ n) by lia. clear Hn.
  revert cs acc Hle. induction n as [| n IH]; intros cs acc Hle H.
  - destruct cs; [discriminate | simpl in Hle; lia].
  - destruct cs as [| c cs1]; [discriminate |].
    simpl in H, Hle.
    repeat case_match; simplify_eq; simpl in *; try lia;
      match goal with
      | H : lex_string _ _ = Some _ |- _ =>
          apply IH in H; simpl in *; lia
      end.
Qed.

Lemma strip_prefix_length p cs r :
  strip_prefix p cs = Some r → length cs = length p + length r.
Proof.
  revert cs. induction p as [| a p IH]; intros cs H; simpl in H.
  - by simplify_eq.
  - destruct cs as [| c cs]; [discriminate |].
    case_match; [| discriminate]. apply IH in H. simpl. lia.
Qed.

Lemma lex_number_length cs n r :
  lex_number cs = Some (n, r) → length r < length cs.
Proof.
  unfold lex_number, lex_int, lex_frac, lex_exp, lex_sign. intros H.
  repeat (case_match; simplify_option_eq).
  all: repeat match goal with
              | H : span_digits _ = _ |- _ => apply span_digits_length in H
              end.
  all: simpl in *; lia.
Qed.

Lemma lex_literal_length cs v r :
  lex_literal cs = Some (v, r) → length r < length cs.
Proof.
  unfold lex_literal. intros H.
  destruct (strip_prefix (list_ascii_of_string "null") cs) as [r1 |] eqn:E1.
  { injection H as _ <-. apply strip_prefix_length in E1. simpl in E1. lia. }
  destruct (strip_prefix (list_ascii_of_string "true") cs) as [r2 |] eqn:E2.
  { injection H as _ <-. apply strip_prefix_length in E2. simpl in E2. lia. }
  destruct (strip_prefix (list_ascii_of_string "false") cs) as [r3 |] eqn:E3.
  { injection H as _ <-. apply strip_prefix_length in E3. simpl in E3. lia. }
  destruct (lex_number cs) as [[n r4] |] eqn:En; [| discriminate].
  injection H as _ <-. by apply lex_number_length in En.
Qed.

Lemma parse_value_S f cs :
  parse_value (S f) cs =
    match skip_ws cs with
    | [] => None
    | c :: r =>
        if bool_decide (c = "{"%char) then
          match skip_ws r with
          | c' :: r' =>
              if bool_decide (c' = "}"%char) then Some (JObject [], r')
              else parse_members f (c' :: r') []
          | [] => None
          end
        else if bool_decide (c = "["%char) then
          match skip_ws r with
          | c' :: r' =>
              if bool_decide (c' = "]"%char) then Some (JArray [], r')
              else parse_elements f (c' :: r') []
          | [] => None
          end
        else if bool_decide (c = quote_char) then
          '(str, r') ← lex_string r [];
          Some (JString (string_of_list_ascii str), r')
        else lex_literal (c :: r)
    end.
Proof. reflexivity. Qed.

Lemma parse_elements_S f cs acc :
  parse_elements (S f) cs acc =
    '(v, r) ← parse_value f cs;
    match skip_ws r with
    | c :: r' =>
        if bool_decide (c = ","%char) then parse_elements f r' (v :: acc)
        else if bool_decide (c = "]"%char)
        then Some (JArray (reverse (v :: acc)), r')
        else None
    | [] => None
    end.
Proof. reflexivity. Qed.

Lemma parse_members_S f cs acc :
  parse_members (S f) cs acc =
    match skip_ws cs with
    | q :: r =>
        if bool_decide (q = quote_char) then
          '(key, r1) ← lex_string r [];
          match skip_ws r1 with
          | colon :: r2 =>
              if bool_decide (colon = ":"%char) then
                '(v, r3) ← parse_value f r2;
                match skip_ws r3 with
                | c :: r4 =>
                    let acc' := (string_of_list_ascii key, v) :: acc in
                    if bool_decide (c = ","%char) then parse_members f r4 acc'
                    else if bool_decide (c = "}"%char)
                    then Some (JObject (reverse acc'), r4)
                    else None
                | [] => None
                end
              else None
          | [] => None
          end
        else None
    | [] => None
    end.
Proof. reflexivity. Qed.

Lemma parse_fuel f :
  enough_fuel parse_value f
  ∧ (∀ acc, enough_fuel (λ f cs, parse_elements f cs acc) f)
  ∧ (∀ acc, enough_fuel (λ f cs, parse_members f cs acc) f).
Proof.
  induction f as [| f (IHv & IHe & IHm)].
  { repeat split; intros; discriminate. }
  split; [| split].
  - intros cs v r H. rewrite parse_value_S in H.
    pose proof (skip_ws_length cs) as Hws.
    destruct (skip_ws cs) as [| c r0] eqn:Hcs; [discriminate |].
    simpl in Hws.
    pose proof (skip_ws_length r0) as Hws0.
    assert (Hgo : ∀ f', length cs - length r ≤ f' → 0 < length cs - length r →
              (∀ f'', f' = S f'' → parse_value (S f'') cs = Some (v, r)) →
              parse_value f' cs = Some (v, r)).
    { intros [| f'] Hf' Hpos Hk; [lia | by apply Hk]. }
    destruct (bool_decide (c = "{"%char)) eqn:Hobj.
    { destruct (skip_ws r0) as [| c' r'] eqn:Hr0; [discriminate |].
      simpl in Hws0.
      destruct (bool_decide (c' = "}"%char)) eqn:Hclose.
      - simplify_eq. split; [lia |]. intros f' Hf'.
        apply Hgo; [done | lia |]. intros f'' ->.
        by rewrite parse_value_S, Hcs, Hobj, Hr0, Hclose.
      - apply IHm in H as [Hlen Hmore]. simpl in Hlen.
        split; [lia |]. intros f' Hf'.
        apply Hgo; [done | lia |]. intros f'' ->.
        rewrite parse_value_S, Hcs, Hobj, Hr0, Hclose.
        apply Hmore. simpl. lia. }
    destruct (bool_decide (c = "["%char)) eqn:Harr.
    { destruct (skip_ws r0) as [| c' r'] eqn:Hr0; [discriminate |].
      simpl in Hws0.
      destruct (bool_decide (c' = "]"%char)) eqn:Hclose.
      - simplify_eq. split; [lia |]. intros f' Hf'.
        apply Hgo; [done | lia |]. intros f'' ->.
        by rewrite parse_value_S, Hcs, Hobj, Harr, Hr0, Hclose.
      - apply IHe in H as [Hlen Hmore]. simpl in Hlen.
        split; [lia |]. intros f' Hf'.
        apply Hgo; [done | lia |]. intros f'' ->.
        rewrite parse_value_S, Hcs, Hobj, Harr, Hr0, Hclose.
        apply Hmore. simpl. lia. }
    destruct (bool_decide (c = quote_char)) eqn:Hq.
    { destruct (lex_string r0 []) as [[str r'] |] eqn:Hstr; [| discriminate].
      simpl in H. simplify_eq. apply lex_string_length in Hstr as Hlen.
      split; [lia |]. intros f' Hf'.
      apply Hgo; [done | lia |]. intros f'' ->.
      by rewrite parse_value_S, Hcs, Hobj, Harr, Hq, Hstr. }
    apply lex_literal_length in H as Hlen. simpl in Hlen.
    split; [lia |]. intros f' Hf'.
    apply Hgo; [done | lia |]. intros f'' ->.
    by rewrite parse_value_S, Hcs, Hobj, Harr, Hq.
  - intros acc cs v r H. rewrite parse_elements_S in H.
    destruct (parse_value f cs) as [[v1 r1] |] eqn:Hv; [| discriminate].
    simpl in H. apply IHv in Hv as [Hlen1 Hmore1].
    pose proof (skip_ws_length r1) as Hws.
    destruct (skip_ws r1) as [| c r2] eqn:Hr1; [discriminate |].
    simpl in Hws.
    destruct (bool_decide (c = ","%char)) eqn:Hcomma.
    + apply IHe in H as [Hlen Hmore].
      split; [lia |]. intros [| f'] Hf'; [lia |].
      rewrite parse_elements_S, Hmore1 by lia. simpl.
      rewrite Hr1, Hcomma. apply Hmore. lia.
    + destruct (bool_decide (c = "]"%char)) eqn:Hclose; [| discriminate].
      simplify_eq. split; [lia |]. intros [| f'] Hf'; [lia |].
      rewrite parse_elements_S, Hmore1 by lia. simpl.
      by rewrite Hr1, Hcomma, Hclose.
  - intros acc cs v r H. rewrite parse_members_S in H.
    pose proof (skip_ws_length cs) as Hws.
    destruct (skip_ws cs) as [| q r0] eqn:Hcs; [discriminate |].
    simpl in Hws.
    destruct (bool_decide (q = quote_char)) eqn:Hq; [| discriminate].
    destruct (lex_string r0 []) as [[key r1] |] eqn:Hkey; [| discriminate].
    simpl in H. apply lex_string_length in Hkey as Hlen1.
    pose proof (skip_ws_length r1) as Hws1.
    destruct (skip_ws r1) as [| colon r2] eqn:Hr1; [discriminate |].
    simpl in Hws1.
    destruct (bool_decide (colon = ":"%char)) eqn:Hcolon; [| discriminate].
    destruct (parse_value f r2) as [[v3 r3] |] eqn:Hv; [| discriminate].
    simpl in H. apply IHv in Hv as [Hlen3 Hmore3].
    pose proof (skip_ws_length r3) as Hws3.
    destruct (skip_ws r3) as [| c r4] eqn:Hr3; [discriminate |].
    simpl in Hws3.
    destruct (bool_decide (c = ","%char)) eqn:Hcomma.
    + apply IHm in H as [Hlen Hmore].
      split; [lia |]. intros [| f'] Hf'; [lia |].
      rewrite parse_members_S, Hcs, Hq, Hkey. simpl.
      rewrite Hr1, Hcolon, Hmore3 by lia. simpl.
      rewrite Hr3, Hcomma. apply Hmore. lia.
    + destruct (bool_decide (c = "}"%char)) eqn:Hclose; [| discriminate].
      simplify_eq. split; [lia |]. intros [| f'] Hf'; [lia |].
      rewrite parse_members_S, Hcs, Hq, Hkey. simpl.
      rewrite Hr1, Hcolon, Hmore3 by lia. simpl.
      by rewrite Hr3, Hcomma, Hclose.
Qed.

(** More fuel than [JSON_parse] gives would change nothing. *)
Lemma JSON_parse_fuel_enough text f v r :
  parse_value f (list_ascii_of_string text) = Some (v, r) →
  parse_value (S (length (list_ascii_of_string text)))
    (list_ascii_of_string text) = Some (v, r).
Proof.
  intros H. destruct (parse_fuel f) as [Hv _].
  apply Hv in H as [_ Hmore]. apply Hmore. lia.
Qed.

End JsonFuel.

(** *** [restore] *)

Section SessionFacts.

(** A stored text that is not JSON makes [JSON.parse] throw inside the
    effect: [restore] does not end normally, and [loading] stays [true]. *)
Lemma restore_malformed_throws :
  restore {[ "zyppy_user" := "{oops" ]} initialAuth = Throws initialAuth
  ∧ ¬ restore_never_fails.
Proof.
  split; [reflexivity |].
  intros H. destruct (H {[ "zyppy_user" := "{oops" ]} initialAuth eq_refl)
    as (s' & Hs' & _).
  discriminate Hs'.
Qed.

(** A stored text that is JSON but no session record becomes the session
    as it is. *)
Example restore_takes_any_json :
  restore {[ "zyppy_user" := "42" ]} initialAuth
  = Normal {| user := JNumber "42"; loading := false |}.
Proof. reflexivity. Qed.

(** C5, amended: [restore] ends normally when nothing is stored under the
    key or the stored text is empty, leaving the session as it was, and
    when the stored text deserializes, making the value it denotes the
    session without looking at its shape; in these cases [loading] is
    cleared. When the stored text is not empty and does not deserialize,
    [restore] throws, the session and [loading] being left as they were. *)
Theorem restore_outcomes (localStorage : gmap string string) (s : AuthState) :
  (localStorage !! "zyppy_user" = None
   ∨ localStorage !! "zyppy_user" = Some EmptyString →
   restore localStorage s = Normal {| user := user s; loading := false |})
  ∧ (∀ text v,
       localStorage !! "zyppy_user" = Some text → text ≠ EmptyString →
       JSON_parse text = Some v →
       restore localStorage s = Normal {| user := v; loading := false |})
  ∧ (∀ text,
       localStorage !! "zyppy_user" = Some text → text ≠ EmptyString →
       JSON_parse text = None →
       restore localStorage s = Throws s).
Proof.
  unfold restore, getItem. repeat split.
  - intros [-> | ->]; reflexivity.
  - intros text v -> Hne ->. unfold truthy_string.
    by rewrite bool_decide_eq_false_2.
  - intros text -> Hne ->. unfold truthy_string.
    by rewrite bool_decide_eq_false_2.
Qed.

Lemma restore_outcomes_witness :
  restore ∅ initialAuth = Normal {| user := JNull; loading := false |}
  ∧ restore {[ "zyppy_user" := "[true]" ]} initialAuth
    = Normal {| user := JArray [JBool true]; loading := false |}
  ∧ restore {[ "zyppy_user" := "[true" ]} initialAuth = Throws initialAuth.
Proof.
  split; [| split].
  - apply (proj1 (restore_outcomes ∅ initialAuth)). left. reflexivity.
  - apply (proj1 (proj2 (restore_outcomes {[ "zyppy_user" := "[true]" ]}
                           initialAuth)) "[true]");
      [reflexivity | discriminate | reflexivity].
  - apply (proj2 (proj2 (restore_outcomes {[ "zyppy_user" := "[true" ]}
                           initialAuth)) "[true");
      [reflexivity | discriminate | reflexivity].
Defined.

End SessionFacts.

(** ** Payment-status polling *)

Section PollingFacts.
Local Open Scope nat_scope.

Implicit Types (s : OrderSuccess) (r : Reply StatusData) (e : Event).

Lemma resume_unresolved sessionId attempts r s :
  unresolved r →
  checkPaymentStatus_resume sessionId attempts r s
  = setTimeout sessionId (attempts + 1) 2000 s.
Proof.
  intros (data & -> & Hpaid & Hexp). unfold checkPaymentStatus_resume.
  by rewrite !bool_decide_eq_false_2.
Qed.

(** C3: one polling step, the arrival of the reply to the query of the
    invocation [checkPaymentStatus(sessionId, attempts)] on a mounted
    screen. A reply with [payment_status] "paid" sets [success]; failing
    that, one with [status] "expired" sets [failed]; any other reply
    leaves the status as it is and registers exactly one timer, of 2000
    ms, for [checkPaymentStatus(sessionId, attempts + 1)], the call that
    sends the next query when the counter is still below the bound; a
    rejected request sets [error]. In the three terminal cases no timer
    is registered, and the step itself sends no query. *)
Theorem polling_step_decision s sessionId attempts rest r :
  mounted s = true →
  awaiting s = {| awaited_sessionId := sessionId;
                  awaited_attempts := attempts |} :: rest →
  ∃ s', step (ReplyArrives r) s = Some s'
    ∧ awaiting s' = rest ∧ queries s' = queries s
    ∧ (∀ data, r = Resolved data → payment_status data = "paid" →
         paymentStatus s' = success ∧ timers s' = timers s)
    ∧ (∀ data, r = Resolved data → payment_status data ≠ "paid" →
         status data = "expired" →
         paymentStatus s' = failed ∧ timers s' = timers s)
    ∧ (∀ data, r = Resolved data → payment_status data ≠ "paid" →
         status data ≠ "expired" →
         paymentStatus s' = paymentStatus s
         ∧ timers s' = (timers s ++
             [ {| timer_delay := 2000; timer_sessionId := sessionId;
                  timer_attempts := attempts + 1 |} ])%list
         ∧ (timers s = [] → attempts + 1 < maxAttempts →
            ∃ s'', step TimerFires s' = Some s''
              ∧ timers s'' = []
              ∧ queries s'' = (queries s ++ [(sessionId, attempts + 1)])%list))
    ∧ (r = Rejected → paymentStatus s' = error ∧ timers s' = timers s).
Proof.
  intros Hm Ha. unfold step at 1. rewrite Ha. simpl.
  eexists; split; [reflexivity |].
  unfold checkPaymentStatus_resume, setPaymentStatus, drop_awaited.
  destruct r as [data |]; simpl.
  - destruct (decide (payment_status data = "paid")) as [Hp | Hp].
    + rewrite (bool_decide_eq_true_2 _ Hp), Hm; simpl. rewrite Ha.
      repeat split; intros; simplify_eq; done.
    + rewrite (bool_decide_eq_false_2 _ Hp).
      destruct (decide (status data = "expired")) as [He | He].
      * rewrite (bool_decide_eq_true_2 _ He), Hm; simpl. rewrite Ha.
        repeat split; intros; simplify_eq; done.
      * rewrite (bool_decide_eq_false_2 _ He); simpl. rewrite Ha.
        repeat split; intros; simplify_eq; try done.
        match goal with H : timers s = [] |- _ => rewrite H end.
        unfold step; simpl. eexists; split; [reflexivity |].
        unfold checkPaymentStatus.
        rewrite bool_decide_eq_false_2 by lia. done.
  - rewrite Hm; simpl. rewrite Ha.
    repeat split; intros; simplify_eq; done.
Qed.

Lemma polling_step_decision_witness :
  ∃ s', step (ReplyArrives (Resolved {| payment_status := "unpaid";
                                        status := "open" |}))
          (startPolling (Some "cs_test_1")) = Some s'
    ∧ paymentStatus s' = checking
    ∧ timers s' = [ {| timer_delay := 2000; timer_sessionId := "cs_test_1";
                       timer_attempts := 1 |} ].
Proof.
  destruct (polling_step_decision (startPolling (Some "cs_test_1"))
              "cs_test_1" 0 []
              (Resolved {| payment_status := "unpaid"; status := "open" |})
              eq_refl eq_refl)
    as (s' & Hstep & _ & _ & _ & _ & Hopen & _).
  exists s'. split; [exact Hstep |].
  destruct (Hopen _ eq_refl ltac:(discriminate) ltac:(discriminate))
    as (Hst & Htm & _).
  split; [exact Hst | exact Htm].
Defined.

(** [run] does nothing more once nothing is pending, and longer runs
    extend shorter ones. *)
Lemma run_quiescent backend n s : quiescent s → run backend n s = s.
Proof.
  intros [Ht Ha]. destruct n; [reflexivity |].
  simpl. unfold next_event. by rewrite Ht, Ha.
Qed.

Lemma run_add backend n m s :
  run backend (n + m) s = run backend m (run backend n s).
Proof.
  revert s. induction n as [| n IH]; intros s; [reflexivity |].
  simpl. destruct (next_event backend s) as [e |] eqn:He.
  - destruct (step e s) as [s' |] eqn:Hs; [apply IH |].
    destruct m; [reflexivity |]. simpl. by rewrite He, Hs.
  - destruct m; [reflexivity |]. simpl. by rewrite He.
Qed.

Lemma asked_S sessionId k :
  asked sessionId (S k) = (asked sessionId k ++ [(sessionId, k)])%list.
Proof. unfold asked. by rewrite seq_S, fmap_app. Qed.

Lemma length_asked sessionId k : length (asked sessionId k) = k.
Proof. unfold asked. by rewrite length_fmap, length_seq. Qed.

Lemma run_reply_unresolved backend sessionId k n :
  (∀ i, unresolved (backend i)) →
  run backend (S n) (polling_at sessionId k)
  = run backend n (sleeping_at sessionId (k + 1)).
Proof.
  intros Hopen. simpl. rewrite resume_unresolved by apply Hopen.
  replace (k + 1) with (S k) by lia. reflexivity.
Qed.

Lemma run_timer_below backend sessionId k n :
  k < maxAttempts →
  run backend (S n) (sleeping_at sessionId k)
  = run backend n (polling_at sessionId k).
Proof.
  intros Hk. simpl. unfold checkPaymentStatus.
  rewrite bool_decide_eq_false_2 by lia.
  unfold polling_at. rewrite asked_S. reflexivity.
Qed.

Lemma run_timer_bound backend sessionId k n :
  maxAttempts ≤ k →
  run backend (S n) (sleeping_at sessionId k)
  = run backend n (timed_out sessionId k).
Proof.
  intros Hk. simpl. unfold checkPaymentStatus.
  by rewrite bool_decide_eq_true_2.
Qed.

Lemma startPolling_truthy sessionId :
  truthy_string sessionId = true →
  startPolling (Some sessionId) = polling_at sessionId 0.
Proof. intros H. unfold startPolling. by rewrite H. Qed.

(** Two events, a reply and the timer it registers, make one round. *)
Lemma run_round backend sessionId k n :
  (∀ i, unresolved (backend i)) →
  k + 1 < maxAttempts →
  run backend (S (S n)) (polling_at sessionId k)
  = run backend n (polling_at sessionId (k + 1)).
Proof.
  intros Hopen Hk. by rewrite run_reply_unresolved, run_timer_below.
Qed.

Lemma chain_inv_start sessionId :
  chain_inv sessionId (startPolling (Some sessionId)).
Proof.
  unfold startPolling. destruct (truthy_string sessionId).
  - exists 1. split; [unfold maxAttempts; lia |]. split; [reflexivity |].
    right; left. by exists 0.
  - exists 0. split; [lia |]. split; [reflexivity |]. by left.
Qed.

Lemma chain_inv_step sessionId e s s' :
  chain_inv sessionId s → step e s = Some s' → chain_inv sessionId s'.
Proof.
  intros (k & Hk & Hq & Hpend) Hstep.
  destruct s as [ps m tm aw qs]. simpl in Hq, Hpend. subst qs.
  destruct e as [| r |]; simpl in Hstep.
  - destruct Hpend as [[-> ->] | [(a & -> & -> & ->) | [-> ->]]];
      try discriminate Hstep.
    injection Hstep as <-. unfold checkPaymentStatus; simpl.
    destruct (decide (maxAttempts ≤ k)) as [Hge | Hlt].
    + rewrite bool_decide_eq_true_2 by done.
      exists k. split; [done |].
      unfold setPaymentStatus; simpl.
      destruct m; simpl; (split; [done |]); left; by split.
    + rewrite bool_decide_eq_false_2 by done.
      exists (S k). split; [lia |]. simpl.
      rewrite asked_S. split; [done |]. right; left. by exists k.
  - destruct Hpend as [[-> ->] | [(a & -> & -> & ->) | [-> ->]]];
      try discriminate Hstep.
    injection Hstep as <-.
    exists (S a). split; [done |].
    unfold checkPaymentStatus_resume, setPaymentStatus, setTimeout; simpl.
    destruct r as [data |];
      [destruct (bool_decide _); [| destruct (bool_decide _)] |];
      try destruct m; simpl; (split; [done |]);
      try (left; by split).
    all: right; right; replace (a + 1) with (S a) by lia; by split.
  - destruct m; [| discriminate]. injection Hstep as <-.
    exists k. by repeat split.
Qed.

Lemma chain_inv_exec sessionId es s s' :
  chain_inv sessionId s → exec es s = Some s' → chain_inv sessionId s'.
Proof.
  revert s. induction es as [| e es IH]; intros s Hinv Hex; simpl in Hex.
  - by injection Hex as <-.
  - destruct (step e s) as [s1 |] eqn:Hs; [| discriminate].
    simpl in Hex. eapply IH; [| exact Hex]. by eapply chain_inv_step.
Qed.

(** Whatever the replies and whatever the order of events, the queries
    sent are those of attempts 0, 1, ... in this order, five at most. *)
Lemma queries_within_bound sessionId es s :
  exec es (startPolling (Some sessionId)) = Some s →
  ∃ k, k ≤ maxAttempts ∧ queries s = asked sessionId k.
Proof.
  intros Hex.
  destruct (chain_inv_exec sessionId es _ s (chain_inv_start sessionId) Hex)
    as (k & Hk & Hq & _).
  by exists k.
Qed.

(** C1: against a status endpoint that always answers with a session
    neither paid nor expired, the polling started at attempt 0 sends the
    five queries of attempts 0 to 4 and no other: after ten events (five
    replies, five timers) the screen shows [timeout] with nothing pending,
    and stays so; the fifth timer, of attempt 5, sets [timeout] without
    sending a query; at no point have more than five queries been sent,
    in whatever order the events come. *)
Theorem polling_unresolved_times_out sessionId backend :
  truthy_string sessionId = true →
  (∀ i, unresolved (backend i)) →
  let start := startPolling (Some sessionId) in
  let final :=
    {| paymentStatus := timeout; mounted := true; timers := [];
       awaiting := [];
       queries := [(sessionId, 0); (sessionId, 1); (sessionId, 2);
                   (sessionId, 3); (sessionId, 4)] |} in
  (∀ n, 10 ≤ n → run backend n start = final)
  ∧ (∀ n, length (queries (run backend n start)) ≤ 5)
  ∧ run backend 9 start = sleeping_at sessionId 5
  ∧ queries (sleeping_at sessionId 5) = queries final
  ∧ (∀ es s, exec es start = Some s → length (queries s) ≤ 5).
Proof.
  intros Hsid Hopen start final. subst start.
  rewrite (startPolling_truthy _ Hsid).
  assert (H9 : run backend 9 (polling_at sessionId 0) = sleeping_at sessionId 5).
  { rewrite !run_round by (done || (unfold maxAttempts; lia)).
    by rewrite run_reply_unresolved. }
  assert (Hlate : ∀ n, 10 ≤ n → run backend n (polling_at sessionId 0) = final).
  { intros n Hn. replace n with (9 + S (n - 10)) by lia.
    rewrite run_add, H9, run_timer_bound by (unfold maxAttempts; lia).
    apply run_quiescent. by split. }
  split; [exact Hlate |].
  split; [| split; [exact H9 | split; [reflexivity |]]]; cycle 1.
  { intros es s Hex. rewrite <- (startPolling_truthy _ Hsid) in Hex.
    destruct (queries_within_bound _ _ _ Hex) as (k & Hk & ->).
    rewrite length_asked. exact Hk. }
  intros n. destruct (decide (10 ≤ n)) as [Hn | Hn].
  - rewrite (Hlate n Hn). simpl. lia.
  - assert (Hshape : ∃ k, k ≤ 5 ∧
              (run backend n (polling_at sessionId 0) = sleeping_at sessionId k
               ∨ (k < 5 ∧ run backend n (polling_at sessionId 0)
                          = polling_at sessionId k))).
    { do 10 (destruct n as [| n];
             [ eexists; split; [| first [ left; reflexivity
                                        | right; split; [| reflexivity]; lia ]];
               lia
             | first [ rewrite run_reply_unresolved by done
                     | rewrite run_timer_below by (unfold maxAttempts; lia) ] ]).
      lia. }
    destruct Hshape as (k & Hk & [-> | [Hlt ->]]);
      unfold sleeping_at, polling_at; cbn [queries];
      rewrite length_asked; lia.
Qed.

Lemma stillOpen_unresolved : unresolved stillOpen.
Proof. eexists. split; [reflexivity |]. split; discriminate. Defined.

Lemma polling_unresolved_times_out_witness :
  run (λ _, stillOpen) 12 (startPolling (Some "cs_test_1"))
  = {| paymentStatus := timeout; mounted := true; timers := [];
       awaiting := [];
       queries := [("cs_test_1", 0); ("cs_test_1", 1); ("cs_test_1", 2);
                   ("cs_test_1", 3); ("cs_test_1", 4)] |}.
Proof.
  apply (proj1 (polling_unresolved_times_out "cs_test_1" (λ _, stillOpen)
                  eq_refl (λ _, stillOpen_unresolved))).
  lia.
Defined.

(** Scenario D of the specification: the third reply reports expiry. *)
Example polling_expired_on_third_query :
  run (λ i, if bool_decide (i = 2) then expired else stillOpen) 20
    (startPolling (Some "cs_test_1"))
  = {| paymentStatus := failed; mounted := true; timers := [];
       awaiting := [];
       queries := [("cs_test_1", 0); ("cs_test_1", 1); ("cs_test_1", 2)] |}.
Proof. reflexivity. Qed.

(** Entering the screen with a session id empties the cart. *)
Lemma mountOrderSuccess_clears_cart sessionId (c : CartState) :
  truthy_string sessionId = true →
  commit (mountOrderSuccess (Some sessionId) c).2 c = initialCart.
Proof. intros H. unfold mountOrderSuccess; simpl. by rewrite H. Qed.

(** *** Terminal states *)

Lemma polling_inv_start session_id : polling_inv (startPolling session_id).
Proof.
  unfold startPolling.
  destruct session_id as [sessionId |]; [destruct (truthy_string sessionId) |];
    (split; [simpl; lia | simpl; intros H; by try discriminate H]).
Qed.

Lemma polling_inv_step e s s' :
  polling_inv s → step e s = Some s' → polling_inv s'.
Proof.
  intros [Hone Hterm] Hstep.
  destruct e as [| r |]; simpl in Hstep.
  - destruct (timers s) as [| t ts] eqn:Ht; [discriminate |].
    simpl in Hstep, Hone. injection Hstep as <-.
    assert (ts = []) as -> by (destruct ts; [done | simpl in Hone; lia]).
    assert (awaiting s = []) as Ha
      by (destruct (awaiting s); [done | simpl in Hone; lia]).
    assert (paymentStatus s = checking) as Hc.
    { destruct (decide (paymentStatus s = checking)) as [| Hn]; [done |].
      destruct Hterm as [Habs _];
        [unfold terminal; by rewrite bool_decide_eq_false_2 |].
      rewrite Ht in Habs. discriminate Habs. }
    unfold checkPaymentStatus, setPaymentStatus, axios_get_status, drop_timer.
    destruct (bool_decide _); [destruct (mounted s) |]; simpl;
      rewrite ?Ht, ?Ha, ?Hc; (split; [simpl; lia |]); simpl;
      intros H; try discriminate H; by split.
  - destruct (awaiting s) as [| a rest] eqn:Ha; [discriminate |].
    simpl in Hstep, Hone. injection Hstep as <-.
    assert (rest = []) as -> by (destruct rest; [done | simpl in Hone; lia]).
    assert (timers s = []) as Ht
      by (destruct (timers s); [done | simpl in Hone; lia]).
    assert (paymentStatus s = checking) as Hc.
    { destruct (decide (paymentStatus s = checking)) as [| Hn]; [done |].
      destruct Hterm as [_ Habs];
        [unfold terminal; by rewrite bool_decide_eq_false_2 |].
      rewrite Ha in Habs. discriminate Habs. }
    unfold checkPaymentStatus_resume, setPaymentStatus, setTimeout,
      drop_awaited.
    destruct r as [data |];
      [destruct (bool_decide _); [| destruct (bool_decide _)] |];
      try destruct (mounted s); simpl;
      rewrite ?Ht, ?Ha, ?Hc; (split; [simpl; lia |]); simpl;
      intros H; try discriminate H; by split.
  - destruct (mounted s); [| discriminate]. injection Hstep as <-.
    split; [exact Hone | exact Hterm].
Qed.

Lemma polling_inv_exec es s s' :
  polling_inv s → exec es s = Some s' → polling_inv s'.
Proof.
  revert s. induction es as [| e es IH]; intros s Hinv Hex; simpl in Hex.
  - by injection Hex as <-.
  - destruct (step e s) as [s1 |] eqn:Hs; [| discriminate].
    simpl in Hex. eapply IH; [| exact Hex]. by eapply polling_inv_step.
Qed.

(** With nothing pending, the only event left is the unmounting, and it
    touches neither the status nor the queries. *)
Lemma quiescent_exec es s s' :
  quiescent s → exec es s = Some s' →
  paymentStatus s' = paymentStatus s ∧ queries s' = queries s
  ∧ quiescent s' ∧ Forall (λ e, e = TearDown) es.
Proof.
  revert s. induction es as [| e es IH]; intros s [Ht Ha] Hex; simpl in Hex.
  - injection Hex as <-. by repeat split.
  - destruct e as [| r |]; simpl in Hex; rewrite ?Ht, ?Ha in Hex;
      try discriminate Hex.
    destruct (mounted s); [| discriminate]. simpl in Hex.
    destruct (IH (unmount s) (conj Ht Ha) Hex) as (Hp & Hq & Hqu & Hall).
    repeat split; try (apply Hqu); [exact Hp | exact Hq |].
    by constructor.
Qed.

(** C4: in any state the polling can reach, once the status is one of
    [success], [failed], [timeout] and [error], no timer and no request is
    left: neither a timer nor a reply can happen, and whatever happens
    afterwards (it can only be the unmounting of the screen) leaves the
    status and the list of queries sent as they are. *)
Theorem terminal_status_is_final session_id es s :
  exec es (startPolling session_id) = Some s →
  terminal (paymentStatus s) = true →
  step TimerFires s = None
  ∧ (∀ r, step (ReplyArrives r) s = None)
  ∧ ∀ es' s', exec es' s = Some s' →
      paymentStatus s' = paymentStatus s ∧ queries s' = queries s
      ∧ Forall (λ e, e = TearDown) es'.
Proof.
  intros Hex Hterm.
  destruct (polling_inv_exec _ _ _ (polling_inv_start session_id) Hex)
    as [_ Hq].
  destruct (Hq Hterm) as [Ht Ha].
  repeat split.
  - unfold step. by rewrite Ht.
  - intros r. unfold step. by rewrite Ha.
  - by destruct (quiescent_exec es' s s' (conj Ht Ha) H) as (? & _).
  - by destruct (quiescent_exec es' s s' (conj Ht Ha) H) as (_ & ? & _).
  - by destruct (quiescent_exec es' s s' (conj Ht Ha) H) as (_ & _ & _ & ?).
Qed.

Lemma terminal_status_is_final_witness :
  ∃ s, exec [ReplyArrives stillOpen; TimerFires; ReplyArrives expired]
         (startPolling (Some "cs_test_1")) = Some s
    ∧ paymentStatus s = failed
    ∧ step TimerFires s = None
    ∧ step (ReplyArrives stillOpen) s = None.
Proof.
  eexists. split; [reflexivity |]. split; [reflexivity |].
  destruct (terminal_status_is_final (Some "cs_test_1")
              [ReplyArrives stillOpen; TimerFires; ReplyArrives expired]
              _ eq_refl eq_refl) as (Htimer & Hreply & _).
  split; [exact Htimer | exact (Hreply stillOpen)].
Defined.

(** *** Unmounting *)

(** The screen is unmounted while the timer of attempt 1 is registered;
    the timer fires all the same and the second query leaves. *)
Lemma teardown_timer_still_fires :
  (∃ s1 s2,
     exec [ReplyArrives stillOpen; TearDown] (startPolling (Some "cs_test_1"))
       = Some s1
     ∧ mounted s1 = false
     ∧ queries s1 = [("cs_test_1", 0)]
     ∧ step TimerFires s1 = Some s2
     ∧ queries s2 = [("cs_test_1", 0); ("cs_test_1", 1)])
  ∧ ¬ teardown_cancels_polling.
Proof.
  split.
  - do 2 eexists. repeat split.
  - intros H.
    specialize (H (Some "cs_test_1") [ReplyArrives stillOpen] _ _ [TimerFires] _
                  eq_refl ltac:(discriminate) eq_refl eq_refl).
    discriminate H.
Qed.

(** An unmounted screen keeps its status, whatever happens. *)
Lemma unmounted_step e s s' :
  mounted s = false → step e s = Some s' →
  mounted s' = false ∧ paymentStatus s' = paymentStatus s.
Proof.
  intros Hm Hstep. destruct e as [| r |]; simpl in Hstep.
  - destruct (timers s) as [| t ts]; [discriminate |].
    injection Hstep as <-.
    unfold checkPaymentStatus, setPaymentStatus, axios_get_status, drop_timer.
    destruct (bool_decide _); simpl; rewrite ?Hm; simpl; done.
  - destruct (awaiting s) as [| a rest]; [discriminate |].
    injection Hstep as <-.
    unfold checkPaymentStatus_resume, setPaymentStatus, setTimeout,
      drop_awaited.
    destruct r as [data |];
      [destruct (bool_decide _); [| destruct (bool_decide _)] |];
      simpl; rewrite ?Hm; simpl; done.
  - rewrite Hm in Hstep. discriminate.
Qed.

Lemma unmounted_exec es s s' :
  mounted s = false → exec es s = Some s' →
  paymentStatus s' = paymentStatus s.
Proof.
  revert s. induction es as [| e es IH]; intros s Hm Hex; simpl in Hex.
  - by injection Hex as <-.
  - destruct (step e s) as [s1 |] eqn:Hs; [| discriminate].
    simpl in Hex. destruct (unmounted_step _ _ _ Hm Hs) as [Hm1 Hp1].
    rewrite <- Hp1. by apply IH.
Qed.

Lemma reply_cases r : unresolved r ∨ ¬ unresolved r.
Proof.
  destruct r as [data |].
  - destruct (decide (payment_status data = "paid")) as [Hp | Hp].
    + right. intros (d & Hd & Hn & _). by simplify_eq.
    + destruct (decide (status data = "expired")) as [He | He].
      * right. intros (d & Hd & _ & Hn). by simplify_eq.
      * left. by exists data.
  - right. intros (d & Hd & _). discriminate Hd.
Qed.

Lemma run_reply backend sessionId k n :
  run backend (S n) (polling_at sessionId k)
  = run backend n
      (checkPaymentStatus_resume sessionId k (backend k)
         (drop_awaited (polling_at sessionId k))).
Proof.
  cbn [run]. unfold next_event. cbn [awaiting polling_at queries].
  rewrite length_asked. cbn [Nat.sub]. rewrite Nat.sub_0_r. reflexivity.
Qed.

Lemma run_reply_open backend sessionId k n :
  unresolved (backend k) →
  run backend (S n) (polling_at sessionId k)
  = run backend n (sleeping_at sessionId (k + 1)).
Proof.
  intros Hopen. rewrite run_reply, (resume_unresolved _ _ _ _ Hopen).
  replace (k + 1) with (S k) by lia. reflexivity.
Qed.

Lemma run_reply_decisive backend sessionId k n :
  ¬ unresolved (backend k) →
  run backend (S n) (polling_at sessionId k)
  = settled sessionId (outcome (backend k)) (S k).
Proof.
  intros Hdec. rewrite run_reply.
  assert (checkPaymentStatus_resume sessionId k (backend k)
            (drop_awaited (polling_at sessionId k))
          = settled sessionId (outcome (backend k)) (S k)) as ->.
  { unfold checkPaymentStatus_resume, outcome.
    destruct (backend k) as [data |]; [| reflexivity].
    destruct (decide (payment_status data = "paid")) as [Hp | Hp].
    - by rewrite (bool_decide_eq_true_2 _ Hp).
    - rewrite (bool_decide_eq_false_2 _ Hp).
      destruct (decide (status data = "expired")) as [He | He].
      + by rewrite (bool_decide_eq_true_2 _ He).
      + exfalso. apply Hdec. by exists data. }
  apply run_quiescent. by split.
Qed.

Lemma outcome_terminal r : terminal (outcome r) = true.
Proof.
  destruct r as [data |]; [| reflexivity].
  unfold outcome. by destruct (bool_decide _).
Qed.

(** From the query of attempt [k], with [d] attempts left, on a mounted
    screen: the polling stops at its bound or at the first reply that
    decides. *)
Lemma run_stops_at backend sessionId d k :
  k + d = maxAttempts → 0 < d →
  ∃ st j, k < j ≤ maxAttempts
    ∧ (j = maxAttempts ∨ ¬ unresolved (backend (j - 1)))
    ∧ ∀ n, 2 * d ≤ n →
        run backend n (polling_at sessionId k) = settled sessionId st j.
Proof.
  revert k. induction d as [| d IH]; intros k Hk Hd; [lia |].
  destruct (reply_cases (backend k)) as [Hopen | Hdec].
  - destruct (decide (d = 0)) as [-> | Hpos].
    + exists timeout, (k + 1). split; [lia |]. split; [left; lia |].
      intros n Hn. destruct n as [| [| n]]; [lia | lia |].
      rewrite run_reply_open, run_timer_bound by (done || lia).
      apply run_quiescent. by split.
    + destruct (IH (k + 1)) as (st & j & Hj & Hwhy & Hrun); [lia | lia |].
      exists st, j. split; [lia |]. split; [exact Hwhy |].
      intros n Hn. destruct n as [| [| n]]; [lia | lia |].
      rewrite run_reply_open, run_timer_below by (done || lia).
      apply Hrun. lia.
  - exists (outcome (backend k)), (S k). split; [lia |].
    split; [right; by replace (S k - 1) with k by lia |].
    intros n Hn. destruct n as [| n]; [lia |].
    by apply run_reply_decisive.
Qed.

(** An unmounted screen runs as the mounted one does, status apart. *)
Lemma tracks_run backend n s1 s2 :
  tracks s1 s2 →
  tracks (run backend n s1) (run backend n s2)
  ∧ paymentStatus (run backend n s1) = paymentStatus s1.
Proof.
  revert s1 s2. induction n as [| n IH]; intros s1 s2 Htr; [done |].
  destruct s1 as [p1 m1 t1 a1 q1], s2 as [p2 m2 t2 a2 q2].
  destruct Htr as (Hm & Ht & Ha & Hq). simpl in Hm, Ht, Ha, Hq. subst.
  cbn [run]. unfold next_event. cbn [awaiting timers queries].
  destruct a2 as [| a a2]; [destruct t2 as [| t t2] |].
  - done.
  - cbn [step timers head mbind option_bind].
    unfold checkPaymentStatus, setPaymentStatus, axios_get_status, drop_timer.
    cbn [mounted timers awaiting queries paymentStatus tail].
    destruct (bool_decide _); [destruct m2 |];
      (edestruct IH as [Htr Hp]; [| split; [exact Htr | rewrite Hp]]);
      try reflexivity; by repeat split.
  - cbn [step awaiting head mbind option_bind].
    unfold checkPaymentStatus_resume, setPaymentStatus, setTimeout,
      drop_awaited.
    cbn [mounted timers awaiting queries paymentStatus tail].
    destruct (backend _) as [data |];
      [destruct (bool_decide _); [| destruct (bool_decide _)] |];
      try destruct m2;
      (edestruct IH as [Htr Hp]; [| split; [exact Htr | rewrite Hp]]);
      try reflexivity; by repeat split.
Qed.

Lemma OrderSuccess_fields s p m t a q :
  paymentStatus s = p → mounted s = m → timers s = t → awaiting s = a →
  queries s = q →
  s = {| paymentStatus := p; mounted := m; timers := t; awaiting := a;
         queries := q |}.
Proof. destruct s. simpl. by intros -> -> -> -> ->. Qed.

(** C6, amended: unmounting the screen cancels nothing. A timer registered
    for an attempt below the bound is still registered afterwards, and
    when it fires the status query of that attempt is sent. From then on
    the polling goes on as it would on the mounted screen, with the same
    timers, requests and queries after any number of events, for every
    backend: from the timer of attempt [k] it ends with the queries of
    attempts 0 to [j-1] sent, [j] above [k], either at its bound ([j] is
    5) or at a reply that decides (the reply to query [j-1]), with nothing
    left pending. What the unmounting does stop is the status shown,
    which no later event changes. *)
Theorem teardown_keeps_timer_armed s t rest :
  mounted s = true →
  timers s = t :: rest →
  timer_attempts t < maxAttempts →
  ∃ s1 s2,
    step TearDown s = Some s1
    ∧ timers s1 = timers s
    ∧ step TimerFires s1 = Some s2
    ∧ queries s2 = (queries s ++ [(timer_sessionId t, timer_attempts t)])%list
    ∧ (∀ es s3, exec es s1 = Some s3 → paymentStatus s3 = paymentStatus s)
    ∧ (∀ backend n,
         timers (run backend n s1) = timers (run backend n s)
         ∧ awaiting (run backend n s1) = awaiting (run backend n s)
         ∧ queries (run backend n s1) = queries (run backend n s)
         ∧ paymentStatus (run backend n s1) = paymentStatus s)
    ∧ (∀ sessionId k backend,
         s = sleeping_at sessionId k →
         ∃ j, k < j ≤ maxAttempts
           ∧ (j = maxAttempts ∨ ¬ unresolved (backend (j - 1)))
           ∧ ∀ n, 2 * (maxAttempts - k) + 1 ≤ n →
               run backend n s1
               = {| paymentStatus := checking; mounted := false;
                    timers := []; awaiting := [];
                    queries := asked sessionId j |}).
Proof.
  intros Hm Ht Hlt. exists (unmount s). eexists.
  assert (Htracks : tracks (unmount s) s) by (by repeat split).
  split; [unfold step; by rewrite Hm |].
  split; [reflexivity |].
  split; [unfold step, unmount; simpl; rewrite Ht; reflexivity |].
  split; [unfold checkPaymentStatus; by rewrite bool_decide_eq_false_2 by lia |].
  split; [intros es s3 Hex; by apply (unmounted_exec es (unmount s) s3) |].
  split.
  - intros backend n.
    destruct (tracks_run backend n _ _ Htracks) as [(_ & Ht' & Ha' & Hq') Hp].
    by repeat split.
  - intros sessionId k backend ->. simpl in Ht. injection Ht as <- <-.
    simpl in Hlt.
    destruct (run_stops_at backend sessionId (maxAttempts - k) k)
      as (st & j & Hj & Hwhy & Hrun); [lia | lia |].
    exists j. split; [exact Hj |]. split; [exact Hwhy |].
    intros n Hn.
    destruct (tracks_run backend n _ _ Htracks)
      as [(Hm' & Ht' & Ha' & Hq') Hp].
    assert (run backend n (sleeping_at sessionId k) = settled sessionId st j)
      as Hmounted.
    { destruct n as [| n]; [lia |].
      rewrite run_timer_below by exact Hlt. apply Hrun. lia. }
    rewrite Hmounted in Ht', Ha', Hq'.
    by apply OrderSuccess_fields.
Qed.

Lemma teardown_keeps_timer_armed_witness :
  ∃ s1 s2,
    step TearDown (sleeping_at "cs_test_1" 1) = Some s1
    ∧ step TimerFires s1 = Some s2
    ∧ queries s2 = [("cs_test_1", 0); ("cs_test_1", 1)]
    ∧ queries (run (λ _, stillOpen) 9 s1) = asked "cs_test_1" 5.
Proof.
  destruct (teardown_keeps_timer_armed (sleeping_at "cs_test_1" 1) _ []
              eq_refl eq_refl)
    as (s1 & s2 & H1 & _ & H2 & Hq & _ & Hsame & _).
  - unfold maxAttempts. simpl. lia.
  - exists s1, s2. split; [exact H1 |]. split; [exact H2 |].
    split; [exact Hq |].
    destruct (Hsame (λ _, stillOpen) 9) as (_ & _ & Hqueries & _).
    rewrite Hqueries. reflexivity.
Defined.

End PollingFacts.

(** * Further properties *)

(** ** Cart engine: runs of all four operations *)

Section CartRuns.

Implicit Types (s : CartState) (item : CartLine) (foodItem : FoodItem)
  (c : list CartLine) (a : CartAction).

Lemma dispatch_removeFromCart s foodItemId :
  dispatch (removeFromCart foodItemId) s =
    {| cart := filter (λ item, food_item_id item ≠ foodItemId) (cart s);
       currentRestaurant := currentRestaurant s |}.
Proof. reflexivity. Qed.

Lemma dispatch_updateQuantity_nonpositive s foodItemId q :
  q ≤ 0 →
  dispatch (updateQuantity foodItemId q) s
  = dispatch (removeFromCart foodItemId) s.
Proof.
  intros Hq. unfold dispatch, updateQuantity. by rewrite bool_decide_eq_true_2.
Qed.

(** [addToCart] runs its updater on the cart or on the emptied cart. *)
Lemma dispatch_addToCart_cases s foodItem qty :
  ∃ c0, (c0 = cart s ∨ c0 = [])
    ∧ dispatch (addToCart foodItem qty) s =
        {| cart := addToCart_updater foodItem qty c0;
           currentRestaurant := Some (fi_restaurant_id foodItem) |}.
Proof.
  destruct (truthy_ref (currentRestaurant s)) eqn:Ht.
  - destruct (decide (currentRestaurant s = Some (fi_restaurant_id foodItem)))
      as [Heq | Hne].
    + exists (cart s). split; [by left |].
      apply dispatch_addToCart_stay. by right.
    + exists []. split; [by right |]. by apply dispatch_addToCart_switch.
  - exists (cart s). split; [by left |].
    apply dispatch_addToCart_stay. by left.
Qed.

(** Induction over the runs of actions from the empty cart. *)
Lemma cart_after_ind (P : CartState → Prop) (Q : CartAction → Prop) :
  P initialCart →
  (∀ s a, Q a → P s → P (dispatch (handler_of a) s)) →
  ∀ actions, Forall Q actions → P (cart_after actions).
Proof.
  intros Hinit Hstep actions.
  induction actions as [| a actions IH] using rev_ind; intros HQ; [exact Hinit |].
  apply Forall_app in HQ as [HQ Ha]. rewrite Forall_singleton in Ha.
  unfold cart_after, dispatch_all. rewrite fmap_app, foldl_app. simpl.
  apply Hstep; [exact Ha |]. by apply IH.
Qed.

Lemma line_ids_set_quantity c (P : CartLine → Prop) `{∀ x, Decision (P x)}
    (f : CartLine → Z) :
  line_ids ((λ item, if decide (P item) then with_quantity item (f item)
                     else item) <$> c) = line_ids c.
Proof.
  unfold line_ids. rewrite <- list_fmap_compose. apply list_fmap_ext.
  intros i item _. simpl. by destruct (decide (P item)).
Qed.

Lemma line_ids_filter_NoDup c (P : CartLine → Prop) `{∀ x, Decision (P x)} :
  NoDup (line_ids c) → NoDup (line_ids (filter P c)).
Proof.
  unfold line_ids. induction c as [| item c IH]; intros Hnd; [constructor |].
  rewrite fmap_cons in Hnd. apply NoDup_cons in Hnd as [Hnotin Hnd].
  rewrite filter_cons. destruct (decide (P item)); [| by apply IH].
  rewrite fmap_cons. apply NoDup_cons. split; [| by apply IH].
  intros Hin. apply Hnotin.
  apply list_elem_of_fmap in Hin as (item' & -> & Hin').
  apply list_elem_of_fmap. exists item'. split; [done |].
  by apply list_elem_of_filter in Hin' as [_ ?].
Qed.

Lemma addToCart_updater_NoDup foodItem qty c :
  NoDup (line_ids c) → NoDup (line_ids (addToCart_updater foodItem qty c)).
Proof.
  intros Hnd. unfold addToCart_updater.
  destruct (list_find _ c) as [hit |] eqn:Hfind.
  - by rewrite (line_ids_set_quantity c
                  (λ item, food_item_id item = fi_id foodItem)
                  (λ item, quantity item + qty)).
  - unfold line_ids in *. rewrite fmap_app. simpl.
    apply NoDup_app. split; [exact Hnd |]. split; [| apply NoDup_singleton].
    intros x Hx Hx'. apply list_elem_of_singleton in Hx'. subst x.
    apply list_elem_of_fmap in Hx as (item & Hid & Hin).
    apply list_find_None in Hfind. rewrite Forall_forall in Hfind.
    by apply (Hfind item Hin).
Qed.

Lemma handler_keeps_ids_unique s a :
  NoDup (line_ids (cart s)) →
  NoDup (line_ids (cart (dispatch (handler_of a) s))).
Proof.
  intros Hnd.
  destruct a as [foodItem qty | foodItemId | foodItemId q |]; cbn [handler_of].
  - destruct (dispatch_addToCart_cases s foodItem qty) as (c0 & Hc0 & ->).
    simpl. apply addToCart_updater_NoDup.
    destruct Hc0 as [-> | ->]; [exact Hnd | constructor].
  - rewrite dispatch_removeFromCart. simpl. by apply line_ids_filter_NoDup.
  - destruct (decide (q ≤ 0)) as [Hq | Hq].
    + rewrite dispatch_updateQuantity_nonpositive, dispatch_removeFromCart
        by done.
      simpl. by apply line_ids_filter_NoDup.
    + rewrite dispatch_updateQuantity_positive by lia. simpl.
      by rewrite (line_ids_set_quantity (cart s)
                    (λ item, food_item_id item = foodItemId) (λ _, q)).
  - constructor.
Qed.

(** X1: whatever the user does, starting from the empty cart, no two
    lines of the cart have the same food item id. *)
Theorem cart_ids_stay_unique (actions : list CartAction) :
  NoDup (line_ids (cart (cart_after actions))).
Proof.
  apply (cart_after_ind (λ s, NoDup (line_ids (cart s))) (λ _, True)).
  - constructor.
  - intros s a _. apply handler_keeps_ids_unique.
  - by apply Forall_true.
Qed.


Lemma Forall_filter_keep {A} (P Q : A → Prop) `{∀ x, Decision (P x)}
    (l : list A) :
  Forall Q l → Forall Q (filter P l).
Proof.
  rewrite !Forall_forall. intros Hl x Hx.
  apply list_elem_of_filter in Hx as [_ Hx]. by apply Hl.
Qed.

Lemma addToCart_updater_positive foodItem qty c :
  1 ≤ qty →
  Forall (λ item, 1 ≤ quantity item) c →
  Forall (λ item, 1 ≤ quantity item) (addToCart_updater foodItem qty c).
Proof.
  intros Hq Hc. unfold addToCart_updater.
  destruct (list_find _ c) as [hit |].
  - apply Forall_fmap. eapply Forall_impl; [exact Hc |].
    intros item Hitem; simpl in *. destruct (decide _); simpl; lia.
  - apply Forall_app; split; [exact Hc |]. by repeat constructor.
Qed.

Lemma handler_keeps_quantities_positive s a :
  adds_at_least_one a →
  Forall (λ item, 1 ≤ quantity item) (cart s) →
  Forall (λ item, 1 ≤ quantity item) (cart (dispatch (handler_of a) s)).
Proof.
  intros Ha Hc.
  destruct a as [foodItem qty | foodItemId | foodItemId q |]; cbn [handler_of].
  - destruct (dispatch_addToCart_cases s foodItem qty) as (c0 & Hc0 & ->).
    simpl. apply addToCart_updater_positive; [exact Ha |].
    destruct Hc0 as [-> | ->]; [exact Hc | constructor].
  - rewrite dispatch_removeFromCart. simpl. by apply Forall_filter_keep.
  - destruct (decide (q ≤ 0)) as [Hq | Hq].
    + rewrite dispatch_updateQuantity_nonpositive, dispatch_removeFromCart
        by done.
      simpl. by apply Forall_filter_keep.
    + rewrite dispatch_updateQuantity_positive by lia. simpl.
      apply Forall_fmap. eapply Forall_impl; [exact Hc |].
      intros item Hitem; simpl in *. destruct (decide _); simpl; lia.
  - constructor.
Qed.

(** X2: when every [addToCart] call adds at least one unit, as the
    [Add to Cart] button does, every line of the cart has a quantity of at
    least one after any run of actions, whatever quantities
    [updateQuantity] is given. *)
Theorem cart_quantities_stay_positive (actions : list CartAction) :
  Forall adds_at_least_one actions →
  Forall (λ item, 1 ≤ quantity item) (cart (cart_after actions)).
Proof.
  apply (cart_after_ind (λ s, Forall (λ item, 1 ≤ quantity item) (cart s))).
  - constructor.
  - intros s a. apply handler_keeps_quantities_positive.
Qed.

Lemma truthy_string_true (x : string) :
  x ≠ EmptyString → truthy_string x = true.
Proof. intros H. unfold truthy_string. by rewrite bool_decide_eq_false_2. Qed.

Lemma handler_keeps_reference s a :
  adds_named_restaurant a →
  lines_follow_reference s
  ∧ (currentRestaurant s = None ∨ truthy_ref (currentRestaurant s) = true) →
  lines_follow_reference (dispatch (handler_of a) s)
  ∧ (currentRestaurant (dispatch (handler_of a) s) = None
     ∨ truthy_ref (currentRestaurant (dispatch (handler_of a) s)) = true).
Proof.
  intros Ha [Hlines Hcur]. unfold lines_follow_reference in *.
  destruct a as [foodItem qty | foodItemId | foodItemId q |]; cbn [handler_of].
  - simpl in Ha. apply truthy_string_true in Ha.
    assert (Hupd : ∀ c0,
              lines_of (fi_restaurant_id foodItem) c0 →
              ∀ item, item ∈ addToCart_updater foodItem qty c0 →
                Some (fi_restaurant_id foodItem) = Some (restaurant_id item)).
    { intros c0 Hc0 item Hin.
      pose proof (addToCart_updater_lines_of foodItem qty c0 Hc0) as Hall.
      unfold lines_of in Hall. rewrite Forall_forall in Hall.
      by rewrite (Hall item Hin). }
    destruct (truthy_ref (currentRestaurant s)) eqn:Ht.
    + destruct (decide (currentRestaurant s
                        = Some (fi_restaurant_id foodItem))) as [Heq | Hne].
      * rewrite dispatch_addToCart_stay by (by right). simpl.
        split; [| by right]. apply Hupd.
        unfold lines_of. apply Forall_forall. intros item Hin.
        specialize (Hlines item Hin). congruence.
      * rewrite dispatch_addToCart_switch by done. simpl.
        split; [| by right]. apply Hupd. constructor.
    + rewrite dispatch_addToCart_stay by (by left). simpl.
      split; [| by right]. apply Hupd.
      unfold lines_of. apply Forall_forall. intros item Hin.
      specialize (Hlines item Hin).
      destruct Hcur as [Hnone | Htrue]; congruence.
  - rewrite dispatch_removeFromCart. simpl. split; [| exact Hcur].
    intros item Hin. apply list_elem_of_filter in Hin as [_ Hin]. by apply Hlines.
  - destruct (decide (q ≤ 0)) as [Hq | Hq].
    + rewrite dispatch_updateQuantity_nonpositive, dispatch_removeFromCart
        by done.
      simpl. split; [| exact Hcur].
      intros item Hin. apply list_elem_of_filter in Hin as [_ Hin].
      by apply Hlines.
    + rewrite dispatch_updateQuantity_positive by lia. simpl.
      split; [| exact Hcur].
      intros item Hin. apply list_elem_of_fmap in Hin as (item0 & -> & Hin).
      specialize (Hlines item0 Hin). by destruct (decide _).
  - simpl. split; [| by left]. intros item Hin. by apply elem_of_nil in Hin.
Qed.

(** X3: when the items added carry restaurant ids that are not empty,
    after any run of the four operations every line of the cart belongs to
    the restaurant the current-restaurant reference holds, the restaurant
    an order made of the cart is sent to. *)
Theorem cart_lines_follow_reference (actions : list CartAction) :
  Forall adds_named_restaurant actions →
  lines_follow_reference (cart_after actions).
Proof.
  intros Hall.
  apply (cart_after_ind
           (λ s, lines_follow_reference s
                 ∧ (currentRestaurant s = None
                    ∨ truthy_ref (currentRestaurant s) = true))
           adds_named_restaurant); [| | exact Hall].
  - split; [| by left]. intros item Hin. by apply elem_of_nil in Hin.
  - intros s a. apply handler_keeps_reference.
Qed.

End CartRuns.

Lemma cart_quantities_stay_positive_witness :
  Forall (λ item, 1 ≤ quantity item)
    (cart (cart_after [DoAdd pricier_burger 2; DoUpdate 1 (-4);
                       DoAdd ramen 1; DoUpdate 2 3])).
Proof.
  apply cart_quantities_stay_positive.
  repeat constructor; simpl; lia.
Defined.

Lemma cart_lines_follow_reference_witness :
  lines_follow_reference
    (cart_after [DoAdd pricier_burger 2; DoAdd ramen 1; DoRemove 2]).
Proof.
  apply cart_lines_follow_reference.
  repeat constructor; simpl; discriminate.
Defined.

(** ** Cart engine: removal, badge and total *)

Section CartCounts.

Implicit Types (s : CartState) (item : CartLine) (foodItem : FoodItem)
  (c : list CartLine).

(** X4: [removeFromCart] drops the lines of the given id and nothing
    else, keeping the order of the others; it changes nothing when no line
    has that id, and removing twice is removing once. *)
Theorem removeFromCart_drops_exactly s foodItemId :
  let s' := dispatch (removeFromCart foodItemId) s in
  (∀ item, item ∈ cart s' ↔ item ∈ cart s ∧ food_item_id item ≠ foodItemId)
  ∧ cart s' `sublist_of` cart s
  ∧ (foodItemId ∉ line_ids (cart s) → s' = s)
  ∧ dispatch (removeFromCart foodItemId) s' = s'.
Proof.
  intros s'. subst s'. rewrite !dispatch_removeFromCart. simpl.
  split; [| split; [| split]].
  - intros item. rewrite list_elem_of_filter. tauto.
  - apply sublist_filter.
  - intros Hnotin. destruct s as [c r]. simpl in *. f_equal.
    induction c as [| item c IH]; [reflexivity |].
    unfold line_ids in Hnotin. rewrite fmap_cons in Hnotin.
    apply not_elem_of_cons in Hnotin as [Hne Hnotin].
    rewrite filter_cons_True by done. f_equal. by apply IH.
  - f_equal. apply list_filter_filter_l. tauto.
Qed.

Lemma removeFromCart_drops_exactly_witness :
  dispatch (removeFromCart 9) two_lines = two_lines.
Proof.
  destruct (removeFromCart_drops_exactly two_lines 9) as (_ & _ & Habsent & _).
  apply Habsent. unfold line_ids. simpl. intros Hin.
  repeat (apply elem_of_cons in Hin as [Hin | Hin]; [discriminate Hin |]).
  by apply elem_of_nil in Hin.
Defined.

(** X19: [updateQuantity] never adds a line, and for an id that has no
    line in the cart it changes nothing, whatever the quantity. *)
Theorem updateQuantity_absent_id s foodItemId q :
  (length (cart (dispatch (updateQuantity foodItemId q) s))
   ≤ length (cart s))%nat
  ∧ (foodItemId ∉ line_ids (cart s) →
     dispatch (updateQuantity foodItemId q) s = s).
Proof.
  assert (Hkeep : foodItemId ∉ line_ids (cart s) →
            filter (λ item, food_item_id item ≠ foodItemId) (cart s) = cart s).
  { intros Hnotin. induction (cart s) as [| item c IH]; [reflexivity |].
    unfold line_ids in Hnotin. rewrite fmap_cons in Hnotin.
    apply not_elem_of_cons in Hnotin as [Hne Hnotin].
    rewrite filter_cons_True by done. f_equal. by apply IH. }
  destruct (decide (q ≤ 0)) as [Hq | Hq].
  - rewrite dispatch_updateQuantity_nonpositive, dispatch_removeFromCart
      by done.
    simpl. split; [apply length_filter |].
    intros Hnotin. rewrite (Hkeep Hnotin). by destruct s.
  - rewrite dispatch_updateQuantity_positive by lia. simpl.
    split; [by rewrite length_fmap |].
    intros Hnotin. destruct s as [c r]. simpl in *. f_equal.
    rewrite <- (list_fmap_id c) at 2. apply list_fmap_ext.
    intros i item Hi. simpl. rewrite decide_False; [done |].
    intros Heq. apply Hnotin. unfold line_ids. apply list_elem_of_fmap.
    exists item. split; [done |]. by eapply list_elem_of_lookup_2.
Qed.

Lemma updateQuantity_absent_id_witness :
  dispatch (updateQuantity 9 4) two_lines = two_lines.
Proof.
  destruct (updateQuantity_absent_id two_lines 9 4) as [_ Habsent].
  apply Habsent. unfold line_ids. simpl. intros Hin.
  repeat (apply elem_of_cons in Hin as [Hin | Hin]; [discriminate Hin |]).
  by apply elem_of_nil in Hin.
Defined.

Lemma cartCount_from (a : Z) c :
  foldl (λ sum item, sum + quantity item) a c = a + cartCount c.
Proof.
  unfold cartCount. revert a. induction c as [| item c IH]; intros a; simpl.
  - lia.
  - rewrite IH, (IH (0 + quantity item)). lia.
Qed.

Lemma cartCount_cons item c :
  cartCount (item :: c) = quantity item + cartCount c.
Proof. unfold cartCount at 1. simpl. rewrite cartCount_from. lia. Qed.

Lemma cartCount_app c1 c2 :
  cartCount (c1 ++ c2) = cartCount c1 + cartCount c2.
Proof.
  induction c1 as [| item c1 IH]; [reflexivity |].
  rewrite <- app_comm_cons, !cartCount_cons, IH. lia.
Qed.

(** Giving the lines of one id new quantities changes the count by what
    the one line of that id gains. *)
Lemma cartCount_set_quantity c (i : Z) (f : CartLine → Z) :
  NoDup (line_ids c) →
  cartCount ((λ item, if decide (food_item_id item = i)
                      then with_quantity item (f item) else item) <$> c)
  = cartCount c
    + match list_find (λ item, food_item_id item = i) c with
      | Some (_, item) => f item - quantity item
      | None => 0
      end.
Proof.
  induction c as [| item c IH]; intros Hnd; [reflexivity |].
  unfold line_ids in Hnd. rewrite fmap_cons in Hnd.
  apply NoDup_cons in Hnd as [Hnotin Hnd].
  rewrite fmap_cons, !cartCount_cons, (IH Hnd). simpl.
  destruct (decide (food_item_id item = i)) as [Heq | Hne]; simpl.
  - assert (list_find (λ item, food_item_id item = i) c = None) as ->.
    { apply list_find_None, Forall_forall. intros x Hx Hxi.
      apply Hnotin. apply list_elem_of_fmap. exists x. split; [congruence | done]. }
    lia.
  - destruct (list_find _ c) as [[j hit] |]; simpl; lia.
Qed.

Lemma cartCount_remove c (i : Z) :
  NoDup (line_ids c) →
  cartCount (filter (λ item, food_item_id item ≠ i) c)
  = cartCount c
    - match list_find (λ item, food_item_id item = i) c with
      | Some (_, item) => quantity item
      | None => 0
      end.
Proof.
  induction c as [| item c IH]; intros Hnd; [reflexivity |].
  unfold line_ids in Hnd. rewrite fmap_cons in Hnd.
  apply NoDup_cons in Hnd as [Hnotin Hnd].
  rewrite filter_cons. simpl.
  destruct (decide (food_item_id item = i)) as [Heq | Hne].
  - rewrite decide_False by (intros Hn; by apply Hn).
    rewrite (IH Hnd), cartCount_cons.
    assert (list_find (λ item, food_item_id item = i) c = None) as ->.
    { apply list_find_None, Forall_forall. intros x Hx Hxi.
      apply Hnotin. apply list_elem_of_fmap. exists x. split; [congruence | done]. }
    lia.
  - rewrite decide_True by done. rewrite !cartCount_cons, (IH Hnd).
    destruct (list_find _ c) as [[j hit] |]; simpl; lia.
Qed.

(** In a cart of unique ids the line found for the id of a line is that
    line. *)
Lemma list_find_own_line c item :
  NoDup (line_ids c) → item ∈ c →
  ∃ j, list_find (λ x, food_item_id x = food_item_id item) c = Some (j, item).
Proof.
  induction c as [| x c IH]; intros Hnd Hin; [by apply elem_of_nil in Hin |].
  unfold line_ids in Hnd. rewrite fmap_cons in Hnd.
  apply NoDup_cons in Hnd as [Hnotin Hnd].
  apply elem_of_cons in Hin as [-> | Hin].
  - exists 0%nat. simpl. by rewrite decide_True.
  - destruct (IH Hnd Hin) as [j Hj]. exists (S j). simpl.
    rewrite decide_False.
    + by rewrite Hj.
    + intros Heq. apply Hnotin. apply list_elem_of_fmap.
      exists item. split; [congruence | done].
Qed.


Lemma cartCount_addToCart_updater foodItem qty c :
  NoDup (line_ids c) →
  cartCount (addToCart_updater foodItem qty c) = cartCount c + qty.
Proof.
  intros Hnd. unfold addToCart_updater.
  pose proof (cartCount_set_quantity c (fi_id foodItem)
                (λ item, quantity item + qty) Hnd) as Hset.
  destruct (list_find _ c) as [[j hit] |].
  - rewrite Hset. lia.
  - rewrite cartCount_app. unfold cartCount at 2. simpl. lia.
Qed.

(** X5: as long as the counts stay within the whole numbers a JavaScript
    number holds exactly (quantities not negative, the count with the
    quantity added at most 2^53), the number on the cart badge rises by
    exactly the quantity added when the item comes from the restaurant the
    cart is on (or the cart has no restaurant yet), whether a line of that
    item exists or not; when the item comes from another restaurant the
    badge shows the quantity added and nothing more. The cart is one of
    unique ids, as every cart reached from the empty one is. *)
Theorem cartCount_after_addToCart s foodItem qty :
  NoDup (line_ids (cart s)) →
  counts_from_zero (cart s) →
  0 ≤ qty →
  cartCount (cart s) + qty ≤ max_safe_count →
  (truthy_ref (currentRestaurant s) = false
   ∨ currentRestaurant s = Some (fi_restaurant_id foodItem) →
   cartCount (cart (dispatch (addToCart foodItem qty) s))
   = cartCount (cart s) + qty)
  ∧ (truthy_ref (currentRestaurant s) = true →
     currentRestaurant s ≠ Some (fi_restaurant_id foodItem) →
     cartCount (cart (dispatch (addToCart foodItem qty) s)) = qty).
Proof.
  intros Hnd _ _ _. split.
  - intros Hstay. rewrite dispatch_addToCart_stay by done. simpl.
    by apply cartCount_addToCart_updater.
  - intros Ht Hne. rewrite dispatch_addToCart_switch by done. simpl.
    rewrite cartCount_addToCart_updater by constructor. reflexivity.
Qed.

Lemma two_lines_unique : NoDup (line_ids (cart two_lines)).
Proof.
  unfold line_ids. simpl. apply NoDup_cons. split.
  - intros Hin. apply list_elem_of_singleton in Hin. discriminate Hin.
  - apply NoDup_singleton.
Defined.

Lemma two_lines_from_zero : counts_from_zero (cart two_lines).
Proof. repeat constructor; simpl; lia. Defined.

Lemma cartCount_after_addToCart_witness :
  cartCount (cart (dispatch (addToCart pricier_burger 4) two_lines)) = 3 + 4
  ∧ cartCount (cart (dispatch (addToCart ramen 2) two_lines)) = 2.
Proof.
  assert (Hsafe4 : cartCount (cart two_lines) + 4 ≤ max_safe_count)
    by (vm_compute; discriminate).
  assert (Hsafe2 : cartCount (cart two_lines) + 2 ≤ max_safe_count)
    by (vm_compute; discriminate).
  destruct (cartCount_after_addToCart two_lines pricier_burger 4
              two_lines_unique two_lines_from_zero ltac:(lia) Hsafe4)
    as [Hstay _].
  destruct (cartCount_after_addToCart two_lines ramen 2 two_lines_unique
              two_lines_from_zero ltac:(lia) Hsafe2)
    as [_ Hswitch].
  split.
  - apply Hstay. right. reflexivity.
  - apply Hswitch; [reflexivity | discriminate].
Defined.

(** X6: in a cart of unique ids whose counts stay within the whole
    numbers a JavaScript number holds exactly (quantities not negative,
    the count below 2^53), on a line of quantity at least one, the [-]
    button lowers the number on the badge by exactly one and the [+]
    button raises it by exactly one; [-] on a line of quantity one removes
    the line, and otherwise both keep the lines and their ids in place. *)
Theorem quantity_buttons_step_by_one s item :
  NoDup (line_ids (cart s)) →
  item ∈ cart s →
  1 ≤ quantity item →
  counts_from_zero (cart s) →
  cartCount (cart s) < max_safe_count →
  cartCount (cart (dispatch (minusButton item) s)) = cartCount (cart s) - 1
  ∧ cartCount (cart (dispatch (plusButton item) s)) = cartCount (cart s) + 1
  ∧ line_ids (cart (dispatch (plusButton item) s)) = line_ids (cart s)
  ∧ (quantity item = 1 →
     food_item_id item ∉ line_ids (cart (dispatch (minusButton item) s)))
  ∧ (1 < quantity item →
     line_ids (cart (dispatch (minusButton item) s)) = line_ids (cart s)).
Proof.
  intros Hnd Hin Hq _ _. unfold minusButton, plusButton.
  destruct (list_find_own_line (cart s) item Hnd Hin) as [j Hfind].
  pose proof (cartCount_set_quantity (cart s) (food_item_id item)
                (λ _, quantity item - 1) Hnd) as Hminus.
  pose proof (cartCount_set_quantity (cart s) (food_item_id item)
                (λ _, quantity item + 1) Hnd) as Hplus.
  pose proof (cartCount_remove (cart s) (food_item_id item) Hnd) as Hrem.
  rewrite Hfind in Hminus, Hplus, Hrem.
  split; [| split; [| split; [| split]]].
  - destruct (decide (quantity item - 1 ≤ 0)) as [Hle | Hgt].
    + rewrite dispatch_updateQuantity_nonpositive, dispatch_removeFromCart
        by done.
      simpl. rewrite Hrem. lia.
    + rewrite dispatch_updateQuantity_positive by lia. simpl.
      rewrite Hminus. lia.
  - rewrite dispatch_updateQuantity_positive by lia. simpl.
    rewrite Hplus. lia.
  - rewrite dispatch_updateQuantity_positive by lia. simpl.
    apply (line_ids_set_quantity (cart s)
             (λ x, food_item_id x = food_item_id item)).
  - intros Hone.
    rewrite dispatch_updateQuantity_nonpositive, dispatch_removeFromCart
      by lia.
    simpl. unfold line_ids. intros Hmem.
    apply list_elem_of_fmap in Hmem as (x & Hx & Hxin).
    apply list_elem_of_filter in Hxin as [Hne _]. by apply Hne.
  - intros Hmany. rewrite dispatch_updateQuantity_positive by lia. simpl.
    apply (line_ids_set_quantity (cart s)
             (λ x, food_item_id x = food_item_id item)).
Qed.

Lemma quantity_buttons_step_by_one_witness :
  cartCount
    (cart (dispatch
             (minusButton {| food_item_id := 2; quantity := 1;
                             name := "Fries"; price := 5 # 1;
                             restaurant_id := "R1" |}) two_lines)) = 3 - 1.
Proof.
  assert (Hsafe : cartCount (cart two_lines) < max_safe_count)
    by (vm_compute; reflexivity).
  destruct (quantity_buttons_step_by_one two_lines
              {| food_item_id := 2; quantity := 1; name := "Fries";
                 price := 5 # 1; restaurant_id := "R1" |}
              two_lines_unique) as [Hminus _].
  - unfold two_lines. simpl. apply list_elem_of_further, list_elem_of_here.
  - simpl. lia.
  - exact two_lines_from_zero.
  - exact Hsafe.
  - exact Hminus.
Defined.

End CartCounts.

(** ** Cart engine: the total *)

Section CartTotalFacts.

Context {Num : Type} (zero : Num) (plus times : Num → Num → Num)
  (of_price : Q → Num) (of_quantity : Z → Num).

Local Abbreviation total :=
  (getCartTotal zero plus times of_price of_quantity).

Lemma getCartTotal_snoc (c : list CartLine) (item : CartLine) :
  total (c ++ [item])
  = plus (total c) (times (of_price (price item))
                          (of_quantity (quantity item))).
Proof. unfold getCartTotal. by rewrite foldl_app. Qed.

(** X7: whatever the arithmetic of the sum and the product, adding an
    item that has no line yet to a cart that stays with its restaurant
    makes the total the old total plus the item's price times the quantity
    added; adding an item of another restaurant makes it zero plus that
    product, and clearing the cart makes it zero. *)
Theorem getCartTotal_after_addToCart (s : CartState) (foodItem : FoodItem)
    (qty : Z) :
  (fi_id foodItem ∉ line_ids (cart s) →
   truthy_ref (currentRestaurant s) = false
   ∨ currentRestaurant s = Some (fi_restaurant_id foodItem) →
   total (cart (dispatch (addToCart foodItem qty) s))
   = plus (total (cart s))
       (times (of_price (fi_price foodItem)) (of_quantity qty)))
  ∧ (truthy_ref (currentRestaurant s) = true →
     currentRestaurant s ≠ Some (fi_restaurant_id foodItem) →
     total (cart (dispatch (addToCart foodItem qty) s))
     = plus zero (times (of_price (fi_price foodItem)) (of_quantity qty)))
  ∧ total (cart (dispatch clearCart s)) = zero.
Proof.
  split; [| split; [| reflexivity]].
  - intros Hnew Hstay. rewrite dispatch_addToCart_stay by done. simpl.
    unfold addToCart_updater.
    assert (list_find (λ item, food_item_id item = fi_id foodItem) (cart s)
            = None) as ->.
    { apply list_find_None, Forall_forall. intros x Hx Hxi.
      apply Hnew. unfold line_ids. apply list_elem_of_fmap.
      exists x. split; [congruence | done]. }
    by rewrite getCartTotal_snoc.
  - intros Ht Hne. by rewrite dispatch_addToCart_switch.
Qed.

End CartTotalFacts.

Lemma getCartTotal_after_addToCart_witness :
  total_Q (cart (dispatch (addToCart ramen 2) two_lines))
  = (0 + (11 # 1) * inject_Z 2)%Q.
Proof.
  apply (getCartTotal_after_addToCart 0%Q Qplus Qmult (λ p, p) inject_Z
           two_lines ramen 2); [reflexivity | discriminate].
Defined.

(** ** Session store: [login], [logout] and the next start *)

Section SessionRoundTrip.

Implicit Types (localStorage : gmap string string) (s : AuthState).

Lemma JSON_parse_empty : JSON_parse EmptyString = None.
Proof. reflexivity. Qed.

(** X8: a successful [login] makes the record received the session and
    stores what [JSON.stringify] makes of it under the key [zyppy_user],
    the key [restore] reads, touching no other key and not the [loading]
    cell. Hence, whenever [JSON.parse] gives the record back from that
    text, the next start of the app finds the same session, with
    [loading] cleared. *)
Theorem login_then_restore (stringify : Json → string) (data : Json)
    localStorage s :
  ∃ storage' s',
    login stringify (Resolved data) localStorage s = Normal (storage', s')
    ∧ user s' = data
    ∧ loading s' = loading s
    ∧ storage' !! "zyppy_user" = Some (stringify data)
    ∧ (∀ key, key ≠ "zyppy_user" → storage' !! key = localStorage !! key)
    ∧ (JSON_parse (stringify data) = Some data →
       restore storage' initialAuth
       = Normal {| user := data; loading := false |}).
Proof.
  do 2 eexists. split; [reflexivity |].
  split; [reflexivity |]. split; [reflexivity |].
  split; [apply lookup_insert_eq |]. split.
  - intros key Hkey. by rewrite lookup_insert_ne.
  - intros Hparse. unfold restore, getItem. rewrite lookup_insert_eq.
    assert (stringify data ≠ EmptyString) as Hne.
    { intros Hempty. rewrite Hempty, JSON_parse_empty in Hparse.
      discriminate Hparse. }
    rewrite (truthy_string_true _ Hne), Hparse. reflexivity.
Qed.

Lemma login_then_restore_witness :
  ∃ storage' s',
    login print_json (Resolved sample_user) ∅ initialAuth
    = Normal (storage', s')
    ∧ storage' !! "zyppy_user" = Some (print_json sample_user)
    ∧ restore storage' initialAuth
      = Normal {| user := sample_user; loading := false |}.
Proof.
  destruct (login_then_restore print_json sample_user ∅ initialAuth)
    as (storage' & s' & Hlogin & _ & _ & Hstored & _ & Hrestore).
  exists storage', s'. split; [exact Hlogin |]. split; [exact Hstored |].
  apply Hrestore. reflexivity.
Defined.

(** X9: [logout] unsets the session and removes the persisted copy, so
    that the next start of the app finds no session; the other keys of the
    storage are left as they were. This holds whatever was stored, a
    record that [restore] would have rejected included. *)
Theorem logout_then_restore localStorage s :
  user (logout localStorage s).2 = JNull
  ∧ (logout localStorage s).1 !! "zyppy_user" = None
  ∧ restore (logout localStorage s).1 initialAuth
    = Normal {| user := JNull; loading := false |}
  ∧ ∀ key, key ≠ "zyppy_user" →
      (logout localStorage s).1 !! key = localStorage !! key.
Proof.
  unfold logout; simpl. split; [reflexivity |].
  split; [apply lookup_delete_eq |]. split.
  - unfold restore, getItem. by rewrite lookup_delete_eq.
  - intros key Hkey. by rewrite lookup_delete_ne.
Qed.

Lemma logout_then_restore_witness :
  (logout {[ "zyppy_user" := "{oops"; "theme" := "dark" ]} initialAuth).1
    !! "theme" = Some "dark".
Proof.
  destruct (logout_then_restore
              {[ "zyppy_user" := "{oops"; "theme" := "dark" ]} initialAuth)
    as (_ & _ & _ & Hother).
  rewrite Hother by discriminate. reflexivity.
Defined.

(** X10: [handleSubmit] with an empty e-mail does nothing at all, no
    request included. With an e-mail, a rejected login request leaves the
    session and the storage as they were, shows the failure message, does
    not call [onLogin] and ends with [loading] cleared; an accepted one
    sets the session, calls [onLogin] once, shows no message and ends with
    [loading] cleared. *)
Theorem handleSubmit_outcomes (stringify : Json → string) (email : string)
    (w : LoginWorld) :
  (email = EmptyString →
   ∀ reply, handleSubmit stringify email reply w = w)
  ∧ (email ≠ EmptyString →
     let w' := handleSubmit stringify email Rejected w in
     lw_auth w' = lw_auth w ∧ lw_storage w' = lw_storage w
     ∧ lw_posted w' = (lw_posted w ++ [email])%list
     ∧ lw_alerts w' = (lw_alerts w ++ ["Login failed. Please try again."])%list
     ∧ lw_onLogin w' = lw_onLogin w ∧ lw_loading w' = false)
  ∧ (email ≠ EmptyString →
     ∀ data,
       let w' := handleSubmit stringify email (Resolved data) w in
       user (lw_auth w') = data
       ∧ lw_storage w' !! "zyppy_user" = Some (stringify data)
       ∧ lw_posted w' = (lw_posted w ++ [email])%list
       ∧ lw_alerts w' = lw_alerts w
       ∧ lw_onLogin w' = S (lw_onLogin w) ∧ lw_loading w' = false).
Proof.
  unfold handleSubmit. split; [| split].
  - intros -> reply. reflexivity.
  - intros Hne. rewrite (truthy_string_true _ Hne). simpl. by repeat split.
  - intros Hne data. rewrite (truthy_string_true _ Hne). simpl.
    repeat split. apply lookup_insert_eq.
Qed.

Lemma handleSubmit_outcomes_witness :
  lw_auth
    (handleSubmit print_json "asha@example.com" Rejected
       {| lw_storage := ∅; lw_auth := initialAuth; lw_loading := false;
          lw_posted := []; lw_alerts := []; lw_onLogin := 0 |})
  = initialAuth.
Proof.
  destruct (handleSubmit_outcomes print_json "asha@example.com"
              {| lw_storage := ∅; lw_auth := initialAuth; lw_loading := false;
                 lw_posted := []; lw_alerts := []; lw_onLogin := 0 |})
    as (_ & Hrejected & _).
  destruct (Hrejected ltac:(discriminate)) as [Hauth _]. exact Hauth.
Defined.

End SessionRoundTrip.

(** ** View router *)

Section RouterFacts.

Lemma split_first (sep : ascii) (s : string) :
  split sep s !! 0%nat = Some (before_first sep s).
Proof.
  induction s as [| c r IH]; [reflexivity |].
  simpl. destruct (bool_decide (c = sep)); [reflexivity |].
  destruct (split sep r) as [| piece pieces]; [discriminate IH |].
  simpl in *. congruence.
Qed.

Lemma before_first_absent (sep : ascii) (s : string) :
  sep ∉ list_ascii_of_string s → before_first sep s = s.
Proof.
  induction s as [| c r IH]; [reflexivity |].
  simpl. intros Hnotin. apply not_elem_of_cons in Hnotin as [Hne Hnotin].
  rewrite bool_decide_eq_false_2 by congruence. by rewrite IH.
Qed.

(** X11: a hash [#restaurant/] followed by an id opens the menu view with
    the id cut at its first [/]: with the id itself when it has no [/]
    (the link of a restaurant card), with the empty id when nothing
    follows. The cells it leaves do not depend on the state before. *)
Theorem handleHashChange_restaurant (id : string) (s : RouterState) :
  handleHashChange (String.append "#restaurant/" id) s
  = {| currentView := restaurant;
       restaurantId := Some (before_first "/" id) |}
  ∧ ("/"%char ∉ list_ascii_of_string id →
     handleHashChange (String.append "#restaurant/" id) s
     = {| currentView := restaurant; restaurantId := Some id |}).
Proof.
  assert (Hgen : handleHashChange (String.append "#restaurant/" id) s
                 = {| currentView := restaurant;
                      restaurantId := Some (before_first "/" id) |}).
  { unfold handleHashChange, startsWith. simpl.
    change (String.append EmptyString id) with id.
    rewrite split_first. by destruct id. }
  split; [exact Hgen |].
  intros Hnoslash. rewrite Hgen. by rewrite before_first_absent.
Qed.

Lemma handleHashChange_restaurant_witness :
  handleHashChange "#restaurant/r-42" initialRouter
  = {| currentView := restaurant; restaurantId := Some "r-42" |}.
Proof.
  apply (proj2 (handleHashChange_restaurant "r-42" initialRouter)).
  simpl. intros Hin.
  repeat (apply elem_of_cons in Hin as [Hin | Hin]; [discriminate Hin |]).
  by apply elem_of_nil in Hin.
Defined.

End RouterFacts.

(** ** Checkout submission: what happens past the address guard *)

Section CheckoutOutcomes.

Implicit Types (u : Json) (address : CodeUnits) (origin : string)
  (w : CheckoutWorld).

(** X12: whatever the address, the user and the replies, [handleCheckout]
    leaves the cart as it is (the cart is emptied only on the return from
    the payment page), sends at most two requests, and, once past the
    address guard, ends with its [loading] flag cleared. *)
Theorem handleCheckout_keeps_cart u address origin
    (orderReply checkoutReply : Reply string) w :
  let w' := handleCheckout u address origin orderReply checkoutReply w in
  cw_cart w' = cw_cart w
  ∧ (∃ sent, cw_requests w' = (cw_requests w ++ sent)%list
             ∧ (length sent ≤ 2)%nat)
  ∧ (trim address ≠ [] → cw_loading w' = false).
Proof.
  intros w'. subst w'. unfold handleCheckout, handleCheckout_try.
  destruct (truthy_units (trim address)) eqn:Htrim; simpl.
  - destruct (user_id_of u) as [uid |]; simpl.
    + destruct orderReply as [order_id |]; simpl.
      * destruct checkoutReply as [url |]; simpl;
          (split; [reflexivity |]); (split; [| done]);
          eexists; rewrite <- app_assoc; (split; [reflexivity |]); simpl; lia.
      * split; [reflexivity |]. split; [| done].
        eexists. split; [reflexivity |]. simpl. lia.
    + split; [reflexivity |]. split; [| done].
      exists []. rewrite app_nil_r. split; [reflexivity |]. simpl. lia.
  - split; [reflexivity |]. split.
    + exists []. rewrite app_nil_r. split; [reflexivity |]. simpl. lia.
    + intros Hne. unfold truthy_units in Htrim.
      rewrite bool_decide_eq_false_2 in Htrim by done. discriminate Htrim.
Qed.

Lemma handleCheckout_keeps_cart_witness :
  cw_loading
    (handleCheckout sample_user [49; 32; 77]%N "https://zyppy.example"
       Rejected Rejected
       {| cw_cart := two_lines; cw_loading := true; cw_alerts := [];
          cw_requests := []; cw_location := None |}) = false.
Proof.
  destruct (handleCheckout_keeps_cart sample_user [49; 32; 77]%N
              "https://zyppy.example" Rejected Rejected
              {| cw_cart := two_lines; cw_loading := true; cw_alerts := [];
                 cw_requests := []; cw_location := None |}) as (_ & _ & Hl).
  apply Hl. discriminate.
Defined.

(** [user.id] as JavaScript reads it from a parsed session: of two members
    named [id] the last counts, and a key written with escapes is the
    name it spells. *)
Example user_id_of_parsed_session :
  user_id_of <$> JSON_parse
    (String "{" (String quote_char ("id" +:+ String quote_char
       (":1," +:+ String quote_char ("id" +:+ String quote_char ":2}")))))
  = Some (Some (Some (JNumber "2")))
  ∧ user_id_of <$> JSON_parse
      (String "{" (String quote_char
         (String backslash_char "u0069d" +:+ String quote_char ":7}")))
    = Some (Some (Some (JNumber "7"))).
Proof. split; reflexivity. Qed.

(** X13: past the address guard and with a user that is not [null], the
    order request always leaves, with [user.id] (the last member of that
    name of the session record), the cart's restaurant reference, its
    lines' ids and quantities in order, and the address as typed; the
    payment-session request leaves only if the order request succeeded and
    carries the order id returned; the window is sent to the payment page
    exactly when both succeeded, and otherwise the failure message is
    shown and the window stays. *)
Theorem handleCheckout_outcomes u address origin
    (orderReply checkoutReply : Reply string) w (uid : option Json) :
  trim address ≠ [] →
  user_id_of u = Some uid →
  let w' := handleCheckout u address origin orderReply checkoutReply w in
  let order :=
    PostOrders {| od_user_id := uid;
                  od_restaurant_id := currentRestaurant (cw_cart w);
                  od_items := (λ item, (food_item_id item, quantity item))
                                <$> cart (cw_cart w);
                  od_delivery_address := address |} in
  match orderReply, checkoutReply with
  | Resolved order_id, Resolved url =>
      cw_requests w'
      = (cw_requests w ++
         [order; PostCheckout {| cd_order_id := order_id;
                                 cd_origin_url := origin |}])%list
      ∧ cw_location w' = Some url ∧ cw_alerts w' = cw_alerts w
  | Resolved order_id, Rejected =>
      cw_requests w'
      = (cw_requests w ++
         [order; PostCheckout {| cd_order_id := order_id;
                                 cd_origin_url := origin |}])%list
      ∧ cw_location w' = cw_location w
      ∧ cw_alerts w'
        = (cw_alerts w ++ ["Checkout failed. Please try again."])%list
  | Rejected, _ =>
      cw_requests w' = (cw_requests w ++ [order])%list
      ∧ cw_location w' = cw_location w
      ∧ cw_alerts w'
        = (cw_alerts w ++ ["Checkout failed. Please try again."])%list
  end.
Proof.
  intros Htrim Hu w' order. subst w' order.
  unfold handleCheckout, handleCheckout_try, truthy_units.
  rewrite bool_decide_eq_false_2 by done. simpl. rewrite Hu.
  destruct orderReply as [order_id |]; simpl;
    [destruct checkoutReply as [url |]; simpl |];
    rewrite <- ?app_assoc; done.
Qed.

Lemma handleCheckout_outcomes_witness :
  cw_location
    (handleCheckout sample_user [49; 32; 77]%N "https://zyppy.example"
       (Resolved "o-1") Rejected
       {| cw_cart := two_lines; cw_loading := false; cw_alerts := [];
          cw_requests := []; cw_location := None |}) = None.
Proof.
  pose proof (handleCheckout_outcomes sample_user [49; 32; 77]%N
                "https://zyppy.example" (Resolved "o-1") Rejected
                {| cw_cart := two_lines; cw_loading := false; cw_alerts := [];
                   cw_requests := []; cw_location := None |}
                (Some (JString "u-17")) ltac:(discriminate) eq_refl) as H.
  destruct H as (_ & Hloc & _). exact Hloc.
Defined.

(** X20: an order made of a cart the user has built from the empty one,
    adding at least one unit at a time, lists every food item once, each
    with a quantity of at least one, as many items as the cart has lines,
    and names the restaurant the cart's reference holds. *)
Theorem order_lists_each_item_once (actions : list CartAction)
    u address origin (orderReply checkoutReply : Reply string) w
    (uid : option Json) :
  Forall adds_at_least_one actions →
  cw_cart w = cart_after actions →
  trim address ≠ [] →
  user_id_of u = Some uid →
  ∃ order rest,
    cw_requests (handleCheckout u address origin orderReply checkoutReply w)
    = (cw_requests w ++ PostOrders order :: rest)%list
    ∧ NoDup (fst <$> od_items order)
    ∧ Forall (λ line, 1 ≤ line.2) (od_items order)
    ∧ length (od_items order) = length (cart (cart_after actions))
    ∧ od_restaurant_id order = currentRestaurant (cart_after actions).
Proof.
  intros Hadds Hcart Htrim Hu.
  exists {| od_user_id := uid;
            od_restaurant_id := currentRestaurant (cw_cart w);
            od_items := (λ item, (food_item_id item, quantity item))
                          <$> cart (cw_cart w);
            od_delivery_address := address |}.
  assert (Hreq : ∃ rest,
            cw_requests
              (handleCheckout u address origin orderReply checkoutReply w)
            = (cw_requests w ++
               PostOrders
                 {| od_user_id := uid;
                    od_restaurant_id := currentRestaurant (cw_cart w);
                    od_items := (λ item, (food_item_id item, quantity item))
                                  <$> cart (cw_cart w);
                    od_delivery_address := address |} :: rest)%list).
  { unfold handleCheckout, handleCheckout_try, truthy_units.
    rewrite bool_decide_eq_false_2 by done. simpl. rewrite Hu.
    destruct orderReply as [order_id |]; simpl;
      [destruct checkoutReply as [url |]; simpl |];
      rewrite <- ?app_assoc; eexists; reflexivity. }
  destruct Hreq as [rest Hreq]. exists rest.
  split; [exact Hreq |]. simpl. rewrite Hcart.
  split; [| split; [| split; [by rewrite length_fmap | reflexivity]]].
  - rewrite <- list_fmap_compose.
    apply (cart_after_ind (λ s, NoDup (line_ids (cart s))) (λ _, True));
      [constructor | | by apply Forall_true].
    intros s a _. apply handler_keeps_ids_unique.
  - apply Forall_fmap. simpl. revert Hadds.
    apply (cart_after_ind
             (λ s, Forall (λ item, 1 ≤ quantity item) (cart s)));
      [constructor |].
    intros s a. apply handler_keeps_quantities_positive.
Qed.

Lemma order_lists_each_item_once_witness :
  ∃ order rest,
    cw_requests
      (handleCheckout sample_user [49; 32; 77]%N "https://zyppy.example"
         (Resolved "o-1") (Resolved "https://pay.example/s")
         {| cw_cart := cart_after [DoAdd pricier_burger 1;
                                   DoAdd pricier_burger 1];
            cw_loading := false; cw_alerts := []; cw_requests := [];
            cw_location := None |})
    = PostOrders order :: rest
    ∧ NoDup (fst <$> od_items order).
Proof.
  destruct (order_lists_each_item_once
              [DoAdd pricier_burger 1; DoAdd pricier_burger 1]
              sample_user [49; 32; 77]%N "https://zyppy.example"
              (Resolved "o-1") (Resolved "https://pay.example/s")
              {| cw_cart := cart_after [DoAdd pricier_burger 1;
                                        DoAdd pricier_burger 1];
                 cw_loading := false; cw_alerts := []; cw_requests := [];
                 cw_location := None |}
              (Some (JString "u-17")))
    as (order & rest & Hreq & Hnd & _).
  - repeat constructor; simpl; lia.
  - reflexivity.
  - discriminate.
  - reflexivity.
  - exists order, rest. split; [exact Hreq | exact Hnd].
Defined.

End CheckoutOutcomes.

(** ** Menu of a restaurant *)

Section MenuFacts.

Context {Item : Type} (category : Item → string).

Lemma set_values_from (seen values : list string) :
  NoDup seen →
  NoDup (foldl (λ seen v, if decide (v ∈ seen) then seen
                          else (seen ++ [v])%list) seen values)
  ∧ ∀ x, x ∈ foldl (λ seen v, if decide (v ∈ seen) then seen
                              else (seen ++ [v])%list) seen values
         ↔ x ∈ seen ∨ x ∈ values.
Proof.
  revert seen. induction values as [| v values IH]; intros seen Hnd; simpl.
  - split; [exact Hnd |]. intros x. rewrite elem_of_nil. tauto.
  - destruct (decide (v ∈ seen)) as [Hin | Hnotin].
    + destruct (IH seen Hnd) as [Hnd' Hmem]. split; [exact Hnd' |].
      intros x. rewrite Hmem, elem_of_cons. split; [tauto |].
      intros [? | [-> | ?]]; tauto.
    + assert (NoDup (seen ++ [v])) as Hnd1.
      { apply NoDup_app. split; [exact Hnd |]. split; [| apply NoDup_singleton].
        intros x Hx Hx'. apply list_elem_of_singleton in Hx'. by subst x. }
      destruct (IH _ Hnd1) as [Hnd' Hmem]. split; [exact Hnd' |].
      intros x. rewrite Hmem, elem_of_app, list_elem_of_singleton, elem_of_cons.
      tauto.
Qed.

Lemma categories_mem (menuItems : list Item) (c : string) :
  c ∈ categories category menuItems
  ↔ ∃ item, item ∈ menuItems ∧ category item = c.
Proof.
  unfold categories, set_values.
  destruct (set_values_from [] (category <$> menuItems)) as [_ Hmem];
    [constructor |].
  rewrite Hmem, elem_of_nil, list_elem_of_fmap. split.
  - intros [[] | (item & -> & Hin)]. by exists item.
  - intros (item & Hin & <-). right. by exists item.
Qed.

(** X14: the category buttons of a menu name each category of the menu
    once: the list has no repetition, and a category is in it exactly when
    some item of the menu has it. *)
Theorem categories_exact (menuItems : list Item) :
  NoDup (categories category menuItems)
  ∧ ∀ c, c ∈ categories category menuItems
         ↔ ∃ item, item ∈ menuItems ∧ category item = c.
Proof.
  unfold categories, set_values.
  destruct (set_values_from [] (category <$> menuItems)) as [Hnd Hmem];
    [constructor |].
  split; [exact Hnd |]. intros c. apply categories_mem.
Qed.

(** X15: with a category selected whose name is not empty, the menu shows
    exactly the items of that category, in the order of the menu, and at
    least one when the category is one of the buttons; every item with a
    named category is shown under its own category. With the empty name
    selected, the [All Items] button or the button of a category without
    name, the whole menu is shown. *)
Theorem filteredItems_exact (menuItems : list Item) :
  filteredItems category EmptyString menuItems = menuItems
  ∧ ∀ c, c ≠ EmptyString →
      (∀ item, item ∈ filteredItems category c menuItems
               ↔ item ∈ menuItems ∧ category item = c)
      ∧ filteredItems category c menuItems `sublist_of` menuItems
      ∧ (c ∈ categories category menuItems →
         filteredItems category c menuItems ≠ []).
Proof.
  split; [reflexivity |]. intros c Hc. unfold filteredItems.
  rewrite (truthy_string_true _ Hc). split; [| split].
  - intros item. rewrite list_elem_of_filter. tauto.
  - apply sublist_filter.
  - intros Hin Hnil.
    apply categories_mem in Hin as (item & Hitem & Hcat).
    assert (item ∈ filter (λ item, category item = c) menuItems) as Habs
      by (apply list_elem_of_filter; by split).
    rewrite Hnil in Habs. by apply elem_of_nil in Habs.
Qed.

End MenuFacts.

Lemma filteredItems_exact_witness :
  filteredItems snd "Starters" sample_menu ≠ [].
Proof.
  destruct (filteredItems_exact snd sample_menu) as [_ Hnamed].
  destruct (Hnamed "Starters" ltac:(discriminate)) as (_ & _ & Hsome).
  apply Hsome. unfold sample_menu. simpl. apply list_elem_of_here.
Defined.

(** ** Payment-status polling: every backend *)

Section PollingOutcomes.
Local Open Scope nat_scope.

Implicit Types (s : OrderSuccess) (r : Reply StatusData)
  (backend : nat → Reply StatusData).

(** From the query of attempt [k], with [d] attempts left. *)
Lemma run_settles backend sessionId d k :
  k + d = maxAttempts → 0 < d →
  ∃ st j, terminal st = true ∧ j ≤ maxAttempts
    ∧ ∀ n, 2 * d ≤ n →
        run backend n (polling_at sessionId k) = settled sessionId st j.
Proof.
  revert k. induction d as [| d IH]; intros k Hk Hd; [lia |].
  destruct (reply_cases (backend k)) as [Hopen | Hdec].
  - destruct (decide (d = 0)) as [-> | Hpos].
    + exists timeout, (k + 1). split; [reflexivity |]. split; [lia |].
      intros n Hn. destruct n as [| [| n]]; [lia | lia |].
      rewrite run_reply_open, run_timer_bound by (done || lia).
      apply run_quiescent. by split.
    + destruct (IH (k + 1)) as (st & j & Hst & Hj & Hrun); [lia | lia |].
      exists st, j. split; [exact Hst |]. split; [exact Hj |].
      intros n Hn. destruct n as [| [| n]]; [lia | lia |].
      rewrite run_reply_open, run_timer_below by (done || lia).
      apply Hrun. lia.
  - exists (outcome (backend k)), (S k).
    split; [apply outcome_terminal |]. split; [lia |].
    intros n Hn. destruct n as [| n]; [lia |].
    by apply run_reply_decisive.
Qed.

(** X16: whatever the backend answers, the polling of a session comes to
    rest: after ten events at most the status is one of [success],
    [failed], [timeout] and [error], no timer and no request is pending,
    at most five queries have been sent, and nothing changes afterwards. *)
Theorem polling_always_settles backend sessionId :
  truthy_string sessionId = true →
  ∃ st j, terminal st = true ∧ j ≤ 5
    ∧ ∀ n, 10 ≤ n →
        run backend n (startPolling (Some sessionId))
        = {| paymentStatus := st; mounted := true; timers := [];
             awaiting := []; queries := asked sessionId j |}.
Proof.
  intros Hsid. rewrite (startPolling_truthy _ Hsid).
  destruct (run_settles backend sessionId 5 0) as (st & j & Hst & Hj & Hrun);
    [reflexivity | lia |].
  exists st, j. split; [exact Hst |]. split; [exact Hj |].
  intros n Hn. apply Hrun. lia.
Qed.

Lemma polling_always_settles_witness :
  ∃ st j, terminal st = true ∧ j ≤ 5
    ∧ run (λ i, if bool_decide (i = 1) then Rejected else stillOpen) 10
        (startPolling (Some "cs_test_1"))
      = {| paymentStatus := st; mounted := true; timers := [];
           awaiting := []; queries := asked "cs_test_1" j |}.
Proof.
  destruct (polling_always_settles
              (λ i, if bool_decide (i = 1) then Rejected else stillOpen)
              "cs_test_1" eq_refl) as (st & j & Hst & Hj & Hrun).
  exists st, j. split; [exact Hst |]. split; [exact Hj |].
  apply Hrun. lia.
Defined.

Lemma run_open_rounds backend sessionId k j n :
  (∀ i, j ≤ i < j + k → unresolved (backend i)) →
  j + k < maxAttempts →
  run backend (2 * k + n) (polling_at sessionId j)
  = run backend n (polling_at sessionId (j + k)).
Proof.
  revert j. induction k as [| k IH]; intros j Hopen Hlt.
  - by rewrite Nat.add_0_r.
  - replace (2 * S k + n) with (S (S (2 * k + n))) by lia.
    rewrite run_reply_open, run_timer_below by (try apply Hopen; lia).
    rewrite IH; [f_equal; f_equal; lia | | lia].
    intros i Hi. apply Hopen. lia.
Qed.

(** X17: the first reply that reports payment, expiry or a failed request
    decides the outcome, provided it is one of the first five: if the
    replies before the [k]-th leave the session open and the [k]-th does
    not, exactly the queries of attempts 0 to [k] are sent, and from event
    [2k+1] on the screen rests with [success] for a paid session (expired
    or not), [failed] for an expired one and [error] for a failed
    request. *)
Theorem polling_first_decisive_reply backend sessionId k :
  truthy_string sessionId = true →
  k < 5 →
  (∀ i, i < k → unresolved (backend i)) →
  ¬ unresolved (backend k) →
  ∀ n, 2 * k + 1 ≤ n →
    run backend n (startPolling (Some sessionId))
    = {| paymentStatus := outcome (backend k); mounted := true;
         timers := []; awaiting := [];
         queries := asked sessionId (S k) |}.
Proof.
  intros Hsid Hk Hopen Hdec n Hn. rewrite (startPolling_truthy _ Hsid).
  replace n with (2 * k + S (n - (2 * k + 1))) by lia.
  rewrite (run_open_rounds backend sessionId k 0)
    by (try (intros i Hi; apply Hopen); unfold maxAttempts; lia).
  by apply run_reply_decisive.
Qed.

Lemma polling_first_decisive_reply_witness :
  run (λ i, if bool_decide (i = 2) then expired else stillOpen) 5
    (startPolling (Some "cs_test_1"))
  = {| paymentStatus := failed; mounted := true; timers := [];
       awaiting := []; queries := asked "cs_test_1" 3 |}.
Proof.
  assert (Hopen : ∀ i, i < 2 →
            unresolved (if bool_decide (i = 2) then expired else stillOpen)).
  { intros i Hi. rewrite bool_decide_eq_false_2 by lia.
    apply stillOpen_unresolved. }
  assert (Hdec : ¬ unresolved
                     (if bool_decide (2 = 2) then expired else stillOpen)).
  { simpl. intros (data & Hd & _ & Hexp). injection Hd as <-. by apply Hexp. }
  exact (polling_first_decisive_reply
           (λ i, if bool_decide (i = 2) then expired else stillOpen)
           "cs_test_1" 2 eq_refl ltac:(lia) Hopen Hdec 5 ltac:(lia)).
Defined.

(** X18: without a session id in the address, absent or empty, the
    screen never polls: no query is ever sent, the status stays
    [checking] whatever happens, and the cart is not emptied. *)
Theorem no_session_id_no_polling (session_id : option string)
    (rendered : CartState) :
  truthy_ref session_id = false →
  (mountOrderSuccess session_id rendered).2 = noEffect
  ∧ ∀ es s, exec es (startPolling session_id) = Some s →
      paymentStatus s = checking ∧ queries s = [].
Proof.
  intros Hfalsy. unfold mountOrderSuccess. rewrite Hfalsy.
  split; [reflexivity |]. intros es s Hex.
  assert (startPolling session_id
          = {| paymentStatus := checking; mounted := true; timers := [];
               awaiting := []; queries := [] |}) as Hstart.
  { unfold startPolling. destruct session_id as [sessionId |]; [| reflexivity].
    simpl in Hfalsy. by rewrite Hfalsy. }
  rewrite Hstart in Hex.
  apply quiescent_exec in Hex as (Hst & Hq & _); [| by split].
  by split.
Qed.

Lemma no_session_id_no_polling_witness :
  ∃ s, exec [TearDown] (startPolling (Some EmptyString)) = Some s
       ∧ paymentStatus s = checking ∧ queries s = [].
Proof.
  destruct (no_session_id_no_polling (Some EmptyString) two_lines eq_refl)
    as [_ Hnever].
  eexists. split; [reflexivity |].
  exact (Hnever [TearDown] _ eq_refl).
Defined.

End PollingOutcomes.
